(** * telegram2rss: the feed refresh pipeline of [rss8.cjs]

    A shallow embedding of the pure helpers ([sanitizeXmlText],
    [extractPostNumber], [detectMimeType], ...), of the media store
    ([downloadImage]) over an explicit file-system state, of the two retry
    loops, and of [processRssFeed] over an explicit cache state.

    Conventions.
    - A JavaScript string is the list of its UTF-16 code units ([jsstring]);
      regular expressions without the [u] flag work on code units.
    - A JavaScript Number holding an integer is a [Z]; the embedding is exact
      for the integers a Number represents exactly (magnitude up to 2^53).
    - What the program obtains from its environment (the upstream fetch, the
      HTTP responses, the XML parser and builder, the clock, the date parser)
      is a variable of the section that uses it. *)

From Stdlib Require Import ZArith List Bool Lia DecimalString.
From Stdlib Require Import Sorting.Sorted Sorting.Permutation.
From Stdlib Require QArith Qround DecimalPos.
From stdpp Require Import base list gmap strings.

Local Open Scope Z_scope.

(** ** JavaScript strings and values *)

Definition jsstring : Type := list Z.

(** The code units of an ASCII literal. *)
Definition js (s : string) : jsstring :=
  List.map (fun a => Z.of_N (Ascii.N_of_ascii a)) (String.list_ascii_of_string s).

(** The values a field of the parsed document can hold. *)
Inductive JsValue : Type :=
  | JsUndefined
  | JsNull
  | JsString (s : jsstring)
  | JsObject.

(** [!v] is true exactly for these. *)
Definition falsy (v : JsValue) : bool :=
  match v with
  | JsUndefined | JsNull => true
  | JsString s => match s with [] => true | _ => false end
  | JsObject => false
  end.

Inductive Error : Type :=
  | TypeError
  | ParseFailure
  | BuildFailure
  | FetchError (code : Z)
  | DownloadError (code : Z).

Inductive Result (A : Type) : Type :=
  | Ok (a : A)
  | Err (e : Error).
Arguments Ok {A} a.
Arguments Err {A} e.

Definition rbind {A B} (r : Result A) (k : A -> Result B) : Result B :=
  match r with
  | Ok a => k a
  | Err e => Err e
  end.

(** ** sanitizeXmlText (lines 37-47) *)

Module Sanitize.

Definition amp : Z := 38.   (* & *)
Definition lt : Z := 60.    (* < *)
Definition gt : Z := 62.    (* > *)
Definition quot : Z := 34.  (* double quote *)
Definition apos : Z := 39.  (* ' *)

Fixpoint startsWith (p s : jsstring) : bool :=
  match p, s with
  | [], _ => true
  | _ :: _, [] => false
  | x :: p', c :: s' => (x =? c) && startsWith p' s'
  end.

(** The alternatives of the lookahead [(amp;|lt;|gt;|quot;|apos;)]. *)
Definition entityNames : list jsstring :=
  [js "amp;"; js "lt;"; js "gt;"; js "quot;"; js "apos;"].

Definition followedByEntity (rest : jsstring) : bool :=
  existsb (fun e => startsWith e rest) entityNames.

(** [.replace(/&(?!(amp;|lt;|gt;|quot;|apos;))/g, '&amp;')]: every match is
    one [&]; the lookahead reads the text after it and consumes nothing. *)
Fixpoint replaceAmp (s : jsstring) : jsstring :=
  match s with
  | [] => []
  | c :: rest =>
      if (c =? amp) && negb (followedByEntity rest)
      then js "&amp;" ++ replaceAmp rest
      else c :: replaceAmp rest
  end.

(** [.replace(/x/g, by)] for a one-character pattern [x]. *)
Definition replaceChar (x : Z) (by_ : jsstring) (s : jsstring) : jsstring :=
  flat_map (fun c => if c =? x then by_ else [c]) s.

(** The last replacement deletes every code unit outside the class
    x09, x0A, x0D, x20-uD7FF, uE000-uFFFD; lone surrogates are outside it. *)
Definition validXmlChar (c : Z) : bool :=
  (c =? 9) || (c =? 10) || (c =? 13)
  || ((32 <=? c) && (c <=? 55295))
  || ((57344 <=? c) && (c <=? 65533)).

Definition stripInvalid (s : jsstring) : jsstring :=
  List.filter validXmlChar s.

(** WhiteSpace and LineTerminator code units, the ones [trim] removes. *)
Definition isWhiteSpace (c : Z) : bool :=
  ((9 <=? c) && (c <=? 13)) || (c =? 32) || (c =? 160) || (c =? 5760)
  || ((8192 <=? c) && (c <=? 8202))
  || (c =? 8232) || (c =? 8233) || (c =? 8239) || (c =? 8287)
  || (c =? 12288) || (c =? 65279).

Fixpoint trimStart (s : jsstring) : jsstring :=
  match s with
  | [] => []
  | c :: rest => if isWhiteSpace c then trimStart rest else s
  end.

Fixpoint trimEnd (s : jsstring) : jsstring :=
  match s with
  | [] => []
  | c :: rest =>
      match trimEnd rest with
      | [] => if isWhiteSpace c then [] else [c]
      | t => c :: t
      end
  end.

Definition trim (s : jsstring) : jsstring := trimEnd (trimStart s).

(** The chain of replacements before the final [trim]. *)
Definition escapeAndStrip (s : jsstring) : jsstring :=
  stripInvalid
    (replaceChar apos (js "&apos;")
       (replaceChar quot (js "&quot;")
          (replaceChar gt (js "&gt;")
             (replaceChar lt (js "&lt;")
                (replaceAmp s))))).

Definition sanitizeString (s : jsstring) : jsstring := trim (escapeAndStrip s).

(** [if (!text)] returns the empty string, otherwise the method chain runs;
    a truthy value that is not a string has no [replace] method and the call
    throws. *)
Definition sanitizeXmlText (text : JsValue) : Result jsstring :=
  if falsy text then Ok []
  else match text with
       | JsString s => Ok (sanitizeString s)
       | _ => Err TypeError
       end.

End Sanitize.

(** ** parseDate (lines 50-53) *)

(** [new Date(s)] for a string is [Date.parse]: [None] stands for the NaN time
    value of an invalid date. [now] is the clock at the call. *)
Definition parseDate (dateParse : jsstring -> option Z) (now : Z)
    (dateStr : jsstring) : Z :=
  match dateParse dateStr with
  | None => now
  | Some t => t
  end.

(** ** extractPostNumber (lines 56-64) *)

Definition slash : Z := 47.

Definition isDigit (c : Z) : bool := (48 <=? c) && (c <=? 57).

(** [link.match(/\/(\d+)$/)]: the leftmost position holding a slash that
    is followed by one or more digits up to the end of the input; the result
    is the capture group. *)
Fixpoint matchTrailingNumber (link : jsstring) : option jsstring :=
  match link with
  | [] => None
  | c :: rest =>
      if (c =? slash) && negb (Nat.eqb (length rest) 0) && forallb isDigit rest
      then Some rest
      else matchTrailingNumber rest
  end.

(** [parseInt] on a string of decimal digits. *)
Definition parseInt (digits : jsstring) : Z :=
  fold_left (fun acc d => 10 * acc + (d - 48)) digits 0.

Definition extractPostNumber (link : jsstring) : Z :=
  match matchTrailingNumber link with
  | Some digits => parseInt digits
  | None => 0
  end.

(** ** detectMimeType and getExtFromMime (lines 67-92) *)

(** The table, in the insertion order that [Object.entries] walks. *)
Definition signatures : list (jsstring * list Z) :=
  [ (js "image/jpeg", [255; 216; 255]);
    (js "image/png",  [137; 80; 78; 71]);
    (js "image/gif",  [71; 73; 70; 56]);
    (js "image/webp", [82; 73; 70; 70]) ].

(** [signature.every((byte, index) => buffer[index] === byte)]; reading past
    the end of the buffer gives [undefined], which equals no byte. *)
Fixpoint everyByteMatches (signature buffer : list Z) : bool :=
  match signature with
  | [] => true
  | byte :: signature' =>
      match buffer with
      | [] => false
      | b :: buffer' => (b =? byte) && everyByteMatches signature' buffer'
      end
  end.

Fixpoint firstMatching (table : list (jsstring * list Z)) (buffer : list Z)
    : option jsstring :=
  match table with
  | [] => None
  | (mimeType, signature) :: table' =>
      if everyByteMatches signature buffer then Some mimeType
      else firstMatching table' buffer
  end.

Definition detectMimeType (buffer : list Z) : jsstring :=
  match firstMatching signatures buffer with
  | Some mimeType => mimeType
  | None => js "image/jpeg"
  end.

Definition jsstring_eqb (a b : jsstring) : bool := bool_decide (a = b).

Definition extensions : list (jsstring * jsstring) :=
  [ (js "image/jpeg", js ".jpg"); (js "image/png", js ".png");
    (js "image/gif", js ".gif"); (js "image/webp", js ".webp") ].

Fixpoint tableLookup (table : list (jsstring * jsstring)) (key : jsstring)
    : option jsstring :=
  match table with
  | [] => None
  | (k, v) :: table' => if jsstring_eqb k key then Some v else tableLookup table' key
  end.

Definition getExtFromMime (mimeType : jsstring) : jsstring :=
  match tableLookup extensions mimeType with
  | Some ext => ext
  | None => js ".jpg"
  end.

(** ** The file system under the image directory *)

(** A directory path maps to its entries, in the order [readdirSync] lists
    them; an entry is a file name with its bytes. A path that is no key does
    not exist. *)
Abbreviation FS := (gmap jsstring (list (jsstring * list Z))).

(** [path.join] on segments that need no normalisation. *)
Fixpoint pathJoin (segments : list jsstring) : jsstring :=
  match segments with
  | [] => js "."
  | [seg] => seg
  | seg :: rest => seg ++ slash :: pathJoin rest
  end.

Definition ensureDirectoryExists (fs : FS) (directory : jsstring) : FS :=
  match fs !! directory with
  | Some _ => fs
  | None => <[directory := []]> fs
  end.

Definition dirEntries (fs : FS) (directory : jsstring) : list (jsstring * list Z) :=
  default [] (fs !! directory).

Definition readdirSync (fs : FS) (directory : jsstring) : list jsstring :=
  List.map fst (dirEntries fs directory).

Fixpoint putFile (name : jsstring) (data : list Z)
    (entries : list (jsstring * list Z)) : list (jsstring * list Z) :=
  match entries with
  | [] => [(name, data)]
  | (n, d) :: entries' =>
      if jsstring_eqb n name then (name, data) :: entries'
      else (n, d) :: putFile name data entries'
  end.

Definition writeFileSync (fs : FS) (directory name : jsstring) (data : list Z) : FS :=
  <[directory := putFile name data (dirEntries fs directory)]> fs.

Fixpoint fileData (name : jsstring) (entries : list (jsstring * list Z)) : list Z :=
  match entries with
  | [] => []
  | (n, d) :: entries' => if jsstring_eqb n name then d else fileData name entries'
  end.

(** [readFileSync] of a file the directory lists; [statSync(...).size] is the
    length of what it returns. *)
Definition readFileSync (fs : FS) (directory name : jsstring) : list Z :=
  fileData name (dirEntries fs directory).

(** [Number.prototype.toString] on a non-negative integer. *)
Definition numberToString (n : Z) : jsstring :=
  js (DecimalString.NilZero.string_of_int (Z.to_int n)).

(** ** The retry loops (lines 128-183 and 187-202) *)

(** What a caller can observe of a run: the requests issued and the delays
    asked of [setTimeout], in program order. *)
Inductive Event : Type :=
  | EvTelegram (channel : jsstring)
  | EvGet (url : jsstring)
  | EvWait (ms : Z).

(** How an async function with such a loop completes: the loop body returns,
    throws, or the loop ends without either and the function returns
    [undefined]. *)
Inductive Completion (A : Type) : Type :=
  | Return (a : A)
  | Throw (e : Error)
  | ReturnUndefined.
Arguments Return {A} a.
Arguments Throw {A} e.
Arguments ReturnUndefined {A}.

(** [for (let attempt = 0; attempt < retries; attempt++) { try { return await
    op } catch (error) { if (attempt === retries - 1) throw error; await
    wait(delay * Math.pow(2, attempt)) } }]. Both loops of the source have
    this shape; [op k] is the outcome of the operation at its [k]-th call and
    [fuel] counts the iterations left, [retries - attempt]. *)
Fixpoint retryLoop {A : Type} (call : Event) (op : nat -> Result A)
    (retries : nat) (delay : Z) (fuel attempt : nat)
    : Completion A * list Event :=
  match fuel with
  | O => (ReturnUndefined, [])
  | S fuel' =>
      match op attempt with
      | Ok a => (Return a, [call])
      | Err error =>
          if Nat.eqb attempt (retries - 1)
          then (Throw error, [call])
          else
            let '(c, tr) := retryLoop call op retries delay fuel' (S attempt) in
            (c, call :: EvWait (delay * 2 ^ Z.of_nat attempt) :: tr)
      end
  end.

Definition safeTelegramRss (telegram_rss : jsstring -> nat -> Result jsstring)
    (telegram_channel : jsstring) (retries : nat) (delay : Z)
    : Completion jsstring * list Event :=
  retryLoop (EvTelegram telegram_channel) (telegram_rss telegram_channel)
    retries delay retries 0%nat.

(** ** downloadImage (lines 103-184) *)

Record ImageData : Type := {
  path : jsstring;
  filename : jsstring;
  size : Z;
  mimeType : jsstring;
  relativePath : jsstring
}.

(** One [https.get]: a 200 response with its whole body, or a rejection
    (another status, a socket error, the 30 s timeout). *)
Inductive HttpOutcome : Type :=
  | Response200 (body : list Z)
  | RequestFailed (e : Error).

(** The [end] handler of a 200 response (lines 140-161). *)
Definition storeResponse (fs : FS) (postDir channel : jsstring) (postNumber : Z)
    (buffer : list Z) : ImageData * FS :=
  let mimeType := detectMimeType buffer in
  let ext := getExtFromMime mimeType in
  let filename := js "image" ++ ext in
  let filepath := pathJoin [postDir; filename] in
  ({| path := filepath;
      filename := filename;
      size := Z.of_nat (length buffer);
      mimeType := mimeType;
      relativePath := pathJoin [js "images"; channel; numberToString postNumber; filename] |},
   writeFileSync fs postDir filename buffer).

(** The promise of one iteration (lines 130-173): it resolves with the
    metadata once the file is written, and rejects otherwise. *)
Definition downloadAttempt (fs : FS) (https_get : nat -> HttpOutcome)
    (postDir channel : jsstring) (postNumber : Z) (attempt : nat)
    : Result (ImageData * FS) :=
  match https_get attempt with
  | Response200 buffer => Ok (storeResponse fs postDir channel postNumber buffer)
  | RequestFailed e => Err e
  end.

Definition downloadImage (imageDir : jsstring) (fs : FS)
    (https_get : nat -> HttpOutcome)
    (imageUrl channel : jsstring) (postNumber : Z) (retries : nat) (delay : Z)
    : Completion ImageData * FS * list Event :=
  let channelDir := pathJoin [imageDir; channel] in
  let fs1 := ensureDirectoryExists fs channelDir in
  let postDir := pathJoin [channelDir; numberToString postNumber] in
  let fs2 := ensureDirectoryExists fs1 postDir in
  match readdirSync fs2 postDir with
  | existingFile :: _ =>
      let buffer := readFileSync fs2 postDir existingFile in
      (Return {| path := pathJoin [postDir; existingFile];
                 filename := existingFile;
                 size := Z.of_nat (length buffer);
                 mimeType := detectMimeType buffer;
                 relativePath :=
                   pathJoin [js "images"; channel; numberToString postNumber; existingFile] |},
       fs2, [])
  | [] =>
      match retryLoop (EvGet imageUrl)
              (downloadAttempt fs2 https_get postDir channel postNumber)
              retries delay retries 0%nat with
      | (Return (imageData, fs3), tr) => (Return imageData, fs3, tr)
      | (Throw e, tr) => (Throw e, fs2, tr)
      | (ReturnUndefined, tr) => (ReturnUndefined, fs2, tr)
      end
  end.

(** ** The documents *)

(** What [processRssFeed] reads of one parsed [item]. A field is [None] when
    the element is absent; otherwise it holds the first child ([x[0]]).
    [raw_image] is [Some None] for an [image] element that has no [url]
    child, where [item.image[0].url[0]] throws. *)
Record RawItem : Type := {
  raw_image : option (option jsstring);
  raw_pubDate : option JsValue;
  raw_link : option jsstring;
  raw_description : option JsValue;
  raw_title : option JsValue
}.

(** What it reads of [parsedData.rss.channel[0]]; the other children of the
    channel are carried along untouched. *)
Record RawChannel : Type := {
  raw_channel_title : option JsValue;
  raw_channel_item : option (list RawItem);
  raw_channel_other : list (jsstring * JsValue)
}.

Record Enclosure : Type := {
  enc_url : jsstring;
  enc_type : jsstring;
  enc_length : jsstring
}.

Record Item : Type := {
  item_title : jsstring;
  item_description : jsstring;
  item_pubDate : jsstring;
  item_link : jsstring;
  item_guid : jsstring;
  item_enclosure : list Enclosure
}.

(** The channel object handed to the XML builder: the Canonical Output
    Document. *)
Record Channel : Type := {
  channel_title : jsstring;
  channel_link : jsstring;
  channel_description : jsstring;
  channel_pubDate : jsstring;
  channel_lastBuildDate : jsstring;
  channel_atom_link : jsstring * jsstring * jsstring;  (* rel, type, href *)
  channel_item : list Item;
  channel_other : list (jsstring * JsValue)
}.

(** ** The cache *)

(** [rssCache]: the last serialized document of a channel with its time. *)
Record CacheEntry : Type := {
  xml : jsstring;
  lastUpdate : Z
}.

Abbreviation Cache := (gmap jsstring CacheEntry).

(** ** The environment of processRssFeed *)

Record Env : Type := {
  imageDir : jsstring;
  (** the upstream collaborator: outcome of its [k]-th call for a channel *)
  telegram_rss : jsstring -> nat -> Result jsstring;
  (** xml2js: [None] when the parsed object has no [rss.channel[0]] *)
  parseStringPromise : jsstring -> Result (option RawChannel);
  buildObject : Channel -> Result jsstring;
  (** [Date.parse], [None] for NaN, and [toUTCString] of a valid time *)
  dateParse : jsstring -> option Z;
  utcString : Z -> jsstring;
  (** [new Date()] at line 218 and at line 288 *)
  buildTime : Z;
  cacheTime : Z;
  (** the [k]-th [https.get] issued for the item at an index *)
  https_get : nat -> nat -> HttpOutcome;
  (** the image directory when the refresh starts *)
  disk : FS;
  (** what the other tasks (refreshes of other channels, requests) do to
      [rssCache] while this run is suspended for the [k]-th time *)
  others : nat -> Cache -> Cache
}.

(** [d.toUTCString()] where [d] is [new Date(v)]. *)
Definition toUTCString (env : Env) (time : option Z) : jsstring :=
  match time with
  | Some t => utcString env t
  | None => js "Invalid Date"
  end.

(** [new Date(v)] for a truthy field value: a string goes through
    [Date.parse]; an object converts to a string that is no date. *)
Definition newDate (env : Env) (v : JsValue) : option Z :=
  match v with
  | JsString s => dateParse env s
  | _ => None
  end.

(** ** The pre-sanitising of the fetched XML (line 210) *)

Definition isNameChar (c : Z) : bool :=
  ((97 <=? c) && (c <=? 122)) || ((65 <=? c) && (c <=? 90))
  || ((48 <=? c) && (c <=? 57)) || (c =? 35).

Fixpoint skipNameChars (s : jsstring) : jsstring :=
  match s with
  | [] => []
  | c :: rest => if isNameChar c then skipNameChars rest else s
  end.

(** The lookahead [[a-zA-Z0-9#]+;]. *)
Definition followedByReference (rest : jsstring) : bool :=
  match rest with
  | [] => false
  | c :: rest' =>
      isNameChar c &&
      match skipNameChars rest' with
      | d :: _ => d =? 59
      | [] => false
      end
  end.

Fixpoint preSanitize (s : jsstring) : jsstring :=
  match s with
  | [] => []
  | c :: rest =>
      if (c =? Sanitize.amp) && negb (followedByReference rest)
      then js "&amp;" ++ preSanitize rest
      else c :: preSanitize rest
  end.

(** ** One item (lines 224-266) *)

Definition fallbackEnclosure (imageUrl : jsstring) : Enclosure :=
  {| enc_url := imageUrl; enc_type := js "image/jpeg"; enc_length := js "0" |}.

Definition localEnclosure (serverUrl : jsstring) (imageData : ImageData) : Enclosure :=
  {| enc_url := serverUrl ++ slash :: relativePath imageData;
     enc_type := mimeType imageData;
     enc_length := numberToString (size imageData) |}.

(** The callback of [channel.item.map], for the item at [index]. Everything
    up to the call of [downloadImage], and the directory check inside it, runs
    before any download of the same refresh completes, so each item sees the
    image directory as it was when the refresh started. A [downloadImage] that
    returns nothing makes [imageData.relativePath] throw inside the [try]. *)
Definition processItem (env : Env) (telegram_channel serverUrl : jsstring)
    (index : nat) (item : RawItem) : Result (Item * Z) :=
  rbind (match raw_image item with
         | None => Ok []
         | Some None => Err TypeError
         | Some (Some u) => Ok u
         end) (fun imageUrl =>
  let latestPubDate := toUTCString env (Some (buildTime env)) in
  let pubDate :=
    match raw_pubDate item with
    | Some d => if falsy d then latestPubDate else toUTCString env (newDate env d)
    | None => latestPubDate
    end in
  rbind (match raw_link item with
         | Some l => Ok l
         | None => Err TypeError
         end) (fun postLink =>
  let postNumber := extractPostNumber postLink in
  rbind (match raw_description item with
         | Some d => Sanitize.sanitizeXmlText d
         | None =>
             match raw_title item with
             | Some t => Sanitize.sanitizeXmlText t
             | None => Err TypeError
             end
         end) (fun descriptionText =>
  let enclosure :=
    match imageUrl with
    | [] => []
    | _ :: _ =>
        match downloadImage (imageDir env) (disk env) (https_get env index)
                imageUrl telegram_channel postNumber 3 2000 with
        | (Return imageData, _, _) => [localEnclosure serverUrl imageData]
        | (Throw _, _, _) => [fallbackEnclosure imageUrl]
        | (ReturnUndefined, _, _) => [fallbackEnclosure imageUrl]
        end
    end in
  Ok ({| item_title := js "[Photo]";
         item_description := descriptionText;
         item_pubDate := pubDate;
         item_link := postLink;
         item_guid := postLink;
         item_enclosure := enclosure |}, postNumber)))).

(** [Promise.all(channel.item.map(...))]: every callback runs to its first
    suspension in item order, and every throw of a callback happens before
    that point, so the first failing item in item order rejects the whole. *)
Fixpoint processItemsFrom (env : Env) (telegram_channel serverUrl : jsstring)
    (index : nat) (items : list RawItem) : Result (list (Item * Z)) :=
  match items with
  | [] => Ok []
  | item :: rest =>
      rbind (processItem env telegram_channel serverUrl index item) (fun e =>
      rbind (processItemsFrom env telegram_channel serverUrl (S index) rest) (fun es =>
      Ok (e :: es)))
  end.

(** [items.sort((a, b) => b._postNumber - a._postNumber)]: a stable sort, so
    the result is the one of inserting from the right with ties kept in
    order. *)
Fixpoint insertByPostNumber (x : Item * Z) (sorted : list (Item * Z))
    : list (Item * Z) :=
  match sorted with
  | [] => [x]
  | y :: rest =>
      if snd x <? snd y then y :: insertByPostNumber x rest
      else x :: y :: rest
  end.

Definition sortItems (items : list (Item * Z)) : list (Item * Z) :=
  foldr insertByPostNumber [] items.

(** [sanitizeXmlText(channel.title[0]) || "Telegram Channel"] (line 214). *)
Definition channelTitle (channel : RawChannel) : Result jsstring :=
  match raw_channel_title channel with
  | None => Err TypeError
  | Some t =>
      rbind (Sanitize.sanitizeXmlText t) (fun title =>
      Ok (match title with [] => js "Telegram Channel" | _ => title end))
  end.

Definition channelItems (channel : RawChannel) : Result (list RawItem) :=
  match raw_channel_item channel with
  | None => Err TypeError
  | Some items => Ok items
  end.

(** Lines 215-221 and 269-275: the rewritten channel with the sorted items,
    the helper field [_postNumber] deleted. *)
Definition assembleChannel (env : Env) (telegram_channel : jsstring)
    (channel : RawChannel) (realChannelTitle : jsstring)
    (items : list (Item * Z)) : Channel :=
  let latestPubDate := toUTCString env (Some (buildTime env)) in
  {| channel_title := realChannelTitle;
     channel_link := js "https://t.me/" ++ telegram_channel;
     channel_description := [];
     channel_pubDate := latestPubDate;
     channel_lastBuildDate := latestPubDate;
     channel_atom_link := (js "self", js "application/rss+xml", []);
     channel_item := List.map fst (sortItems items);
     channel_other := raw_channel_other channel |}.

(** Lines 213-275 as one function from the parsed channel to the Canonical
    Output Document. *)
Definition normalizeChannel (env : Env) (telegram_channel serverUrl : jsstring)
    (channel : RawChannel) : Result Channel :=
  rbind (channelTitle channel) (fun realChannelTitle =>
  rbind (channelItems channel) (fun rawItems =>
  rbind (processItemsFrom env telegram_channel serverUrl 0%nat rawItems) (fun items =>
  Ok (assembleChannel env telegram_channel channel realChannelTitle items)))).

(** ** The cache and processRssFeed (lines 205-296) *)

(** A run of an async function over the shared [rssCache]: its outcome, the
    cache it leaves, and the cache as the run left it at each suspension
    ([await]), which is what the tasks that run meanwhile find. *)
Record Run (A : Type) : Type := {
  outcome : Result A;
  cacheAfter : Cache;
  observed : list Cache
}.
Arguments outcome {A} r.
Arguments cacheAfter {A} r.
Arguments observed {A} r.

Definition Task (A : Type) : Type := Cache -> Run A.

Definition ret {A} (a : A) : Task A :=
  fun c => {| outcome := Ok a; cacheAfter := c; observed := [] |}.

Definition lift {A} (r : Result A) : Task A :=
  fun c => {| outcome := r; cacheAfter := c; observed := [] |}.

(** The run is suspended with the cache [c] in place, the other tasks run,
    and the run resumes with the outcome [r] of what it awaited. *)
Definition await {A : Type} (meanwhile : Cache -> Cache) (r : Result A) : Task A :=
  fun c => {| outcome := r; cacheAfter := meanwhile c; observed := [c] |}.

Definition cacheSet (key : jsstring) (entry : CacheEntry) : Task unit :=
  fun c => {| outcome := Ok tt; cacheAfter := <[key := entry]> c; observed := [] |}.

Definition bind {A B} (m : Task A) (k : A -> Task B) : Task B :=
  fun c =>
    let r := m c in
    match outcome r with
    | Ok a =>
        let r' := k a (cacheAfter r) in
        {| outcome := outcome r';
           cacheAfter := cacheAfter r';
           observed := observed r ++ observed r' |}
    | Err e => {| outcome := Err e; cacheAfter := cacheAfter r; observed := observed r |}
    end.

Notation "'do' x <- m ; k" := (bind m (fun x => k))
  (at level 10, x name, m at level 100, k at level 200).

(** What [await f()] yields for a completion; a loop that returned nothing
    gives [undefined], on which the next method call throws. *)
Definition awaited {A} (c : Completion A) : Result A :=
  match c with
  | Return a => Ok a
  | Throw e => Err e
  | ReturnUndefined => Err TypeError
  end.

(** The [try] block; the [catch] logs and rethrows. *)
Definition processRssFeed (env : Env) (telegram_channel serverUrl : jsstring)
    : Task jsstring :=
  do result <- await (others env 0)
                 (awaited (fst (safeTelegramRss (telegram_rss env) telegram_channel 3 2000)));
  let result := preSanitize result in
  do parsedData <- await (others env 1) (parseStringPromise env result);
  do channel <- lift (match parsedData with Some ch => Ok ch | None => Err TypeError end);
  do realChannelTitle <- lift (channelTitle channel);
  do rawItems <- lift (channelItems channel);
  do items <- await (others env 2)
                (processItemsFrom env telegram_channel serverUrl 0%nat rawItems);
  let channel' := assembleChannel env telegram_channel channel realChannelTitle items in
  do newXml <- lift (buildObject env channel');
  do done <- cacheSet telegram_channel {| xml := newXml; lastUpdate := cacheTime env |};
  ret newXml.

(** ** Vocabulary of the statements *)

(** Every [&] of the text begins one of the five recognised entities. *)
Fixpoint ampOk (s : jsstring) : bool :=
  match s with
  | [] => true
  | c :: rest =>
      (if c =? Sanitize.amp then Sanitize.followedByEntity rest else true)
      && ampOk rest
  end.

(** The four characters escaped one by one. *)
Definition isMarkup (c : Z) : bool :=
  (c =? Sanitize.lt) || (c =? Sanitize.gt) || (c =? Sanitize.quot) || (c =? Sanitize.apos).

(** Text free of raw [&], [<], [>], double and single quotes: it holds none
    of the last four, and an [&] only as the start of an entity. *)
Definition rawFree (s : jsstring) : bool :=
  ampOk s && forallb (fun c => negb (isMarkup c)) s.

(** The characters of the entity names are of this kind: not [&], not markup,
    not strippable, not white space. *)
Definition plain (c : Z) : bool :=
  negb (c =? Sanitize.amp) && negb (isMarkup c) && Sanitize.validXmlChar c
  && negb (Sanitize.isWhiteSpace c).

(** [c] is none of the characters [xs]. *)
Definition noneOf (xs : list Z) (c : Z) : bool :=
  forallb (fun x => negb (c =? x)) xs.

(** A text transformer that copies a run of plain characters at the front. *)
Definition transparent (g : jsstring -> jsstring) : Prop :=
  forall e r, forallb plain e = true -> g (e ++ r) = e ++ g r.

(** The number a string of decimal digits denotes, place by place. *)
Fixpoint decimalValue (digits : jsstring) : Z :=
  match digits with
  | [] => 0
  | d :: rest => (d - 48) * 10 ^ Z.of_nat (length rest) + decimalValue rest
  end.


(** The four magic numbers of the signature table. *)
Definition jpegMagic : list Z := [255; 216; 255].     (* FF D8 FF *)
Definition pngMagic : list Z := [137; 80; 78; 71].    (* 89 50 4E 47 *)
Definition gifMagic : list Z := [71; 73; 70; 56].     (* 47 49 46 38 *)
Definition webpMagic : list Z := [82; 73; 70; 70].    (* 52 49 46 46 *)

(** What a retry loop leaves in the trace for [k] failed attempts that were
    followed by another one, the first of them being attempt [from]: each is
    a call and then a wait of [delay * 2 ^ attempt]. *)
Fixpoint retryTrace (call : Event) (delay : Z) (from k : nat) : list Event :=
  match k with
  | O => []
  | S k' => call :: EvWait (delay * 2 ^ Z.of_nat from) :: retryTrace call delay (S from) k'
  end.

(** The operation fails at every call before the [k]-th. *)
Definition failsBefore {A} (op : nat -> Result A) (k : nat) : Prop :=
  forall j, (j < k)%nat -> exists e, op j = Err e.

Definition requestsFailBefore (https_get : nat -> HttpOutcome) (k : nat) : Prop :=
  forall j, (j < k)%nat -> exists e, https_get j = RequestFailed e.

(** The directory of a post, and the file system once [downloadImage] has
    made sure of its two directories. *)
Definition postDirOf (imageDir channel : jsstring) (postNumber : Z) : jsstring :=
  pathJoin [pathJoin [imageDir; channel]; numberToString postNumber].

Definition withPostDir (fs : FS) (imageDir channel : jsstring) (postNumber : Z) : FS :=
  ensureDirectoryExists (ensureDirectoryExists fs (pathJoin [imageDir; channel]))
    (postDirOf imageDir channel postNumber).

(** The number of requests in a trace. *)
Definition countRequests (tr : list Event) : nat :=
  length (List.filter (fun ev => match ev with EvWait _ => false | _ => true end) tr).

(** Sample environments for the statements below. *)

(** An upstream that fails twice and then answers. *)
Definition flakyUpstream (channel : jsstring) (k : nat) : Result jsstring :=
  match k with
  | 0%nat => Err (FetchError 1)
  | 1%nat => Err (FetchError 2)
  | _ => Ok (js "<rss/>")
  end.

(** An upstream that is down; every call fails with its own error. *)
Definition deadUpstream (channel : jsstring) (k : nat) : Result jsstring :=
  Err (FetchError (Z.of_nat k)).

Definition samplePng : list Z := [137; 80; 78; 71; 13; 10; 26; 10].

(** A media server that fails once and then serves a PNG. *)
Definition flakyServer (k : nat) : HttpOutcome :=
  match k with
  | 0%nat => RequestFailed (DownloadError 500)
  | _ => Response200 samplePng
  end.

Definition goodServer (k : nat) : HttpOutcome := Response200 samplePng.

Definition deadServer (k : nat) : HttpOutcome :=
  RequestFailed (DownloadError (Z.of_nat k)).

(** Two calls of the media store one after the other, for the same key and
    URL, with the default retry settings: the outcome and trace of each. *)
Definition storeTwice (imageDir : jsstring) (fs : FS)
    (first second : nat -> HttpOutcome) (imageUrl channel : jsstring) (postNumber : Z)
    : (Completion ImageData * list Event) * (Completion ImageData * list Event) :=
  let '(r1, fs1, tr1) := downloadImage imageDir fs first imageUrl channel postNumber 3 2000 in
  let '(r2, _, tr2) := downloadImage imageDir fs1 second imageUrl channel postNumber 3 2000 in
  ((r1, tr1), (r2, tr2)).

(** The ordering key of an output entry: the post number of its link. *)
Definition orderingKey (e : Item) : Z := extractPostNumber (item_link e).


(** Descending order of the helper field, and of the ordering key. *)
Definition postNumberDescending (a b : Item * Z) : Prop := snd b <= snd a.

(** A text field the sanitizer accepts: a string or nothing. *)
Definition textOk (v : JsValue) : bool :=
  match v with
  | JsObject => false
  | _ => true
  end.

(** An item of the expected feed shape: a link, a description or else a
    title as text, and an image, when there is one, with its url. *)
Definition wellFormedItem (item : RawItem) : bool :=
  match raw_image item with Some None => false | _ => true end
  && match raw_link item with Some _ => true | None => false end
  && match raw_description item with
     | Some d => textOk d
     | None => match raw_title item with Some t => textOk t | None => false end
     end.

Definition wellFormedChannel (channel : RawChannel) : bool :=
  match raw_channel_title channel with Some t => textOk t | None => false end
  && match raw_channel_item channel with
     | Some items => forallb wellFormedItem items
     | None => false
     end.

(** A clock that knows two instants, enough for the sample feed. *)
Definition sampleDateParse (s : jsstring) : option Z :=
  if jsstring_eqb s (js "Thu, 01 Jan 1970 00:00:00 GMT") then Some 0
  else if jsstring_eqb s (js "Fri, 02 Jan 1970 00:00:00 GMT") then Some 86400000
  else None.

Definition sampleUtcString (t : Z) : jsstring :=
  if t =? 86400000 then js "Fri, 02 Jan 1970 00:00:00 GMT"
  else js "Thu, 01 Jan 1970 00:00:00 GMT".

(** A feed of four posts: two share the post number 5, one has an image whose
    download fails and a date that is no date, one has a link without a
    number. *)
Definition sampleItems : list RawItem :=
  [ {| raw_image := Some (Some (js "https://cdn/a.png"));
       raw_pubDate := Some (JsString (js "Thu, 01 Jan 1970 00:00:00 GMT"));
       raw_link := Some (js "https://t.me/news/5");
       raw_description := Some (JsString (js "a < b"));
       raw_title := Some (JsString (js "first")) |};
    {| raw_image := Some (Some (js "https://cdn/b.png"));
       raw_pubDate := Some (JsString (js "yesterday"));
       raw_link := Some (js "https://t.me/news/9");
       raw_description := None;
       raw_title := Some (JsString (js "Tom & Jerry")) |};
    {| raw_image := None;
       raw_pubDate := None;
       raw_link := Some (js "https://t.me/s/news/5");
       raw_description := Some (JsString (js "again five"));
       raw_title := None |};
    {| raw_image := None;
       raw_pubDate := Some (JsString []);
       raw_link := Some (js "https://t.me/news");
       raw_description := Some (JsString []);
       raw_title := None |} ].

Definition sampleChannel : RawChannel :=
  {| raw_channel_title := Some (JsString (js " News "));
     raw_channel_item := Some sampleItems;
     raw_channel_other := [] |}.

(** The first item's image downloads at once, every other request fails. *)
Definition sampleEnv : Env :=
  {| imageDir := js "/srv/images";
     telegram_rss := flakyUpstream;
     parseStringPromise := fun _ => Ok (Some sampleChannel);
     buildObject := fun c => Ok (concat (List.map item_link (channel_item c)));
     dateParse := sampleDateParse;
     utcString := sampleUtcString;
     buildTime := 86400000;
     cacheTime := 86400001;
     https_get := fun index => match index with 0%nat => goodServer | _ => deadServer end;
     disk := ∅;
     others := fun _ c => c |}.

(** The same, with an upstream that is down. *)
Definition deadEnv : Env :=
  {| imageDir := imageDir sampleEnv;
     telegram_rss := deadUpstream;
     parseStringPromise := parseStringPromise sampleEnv;
     buildObject := buildObject sampleEnv;
     dateParse := dateParse sampleEnv;
     utcString := utcString sampleEnv;
     buildTime := buildTime sampleEnv;
     cacheTime := cacheTime sampleEnv;
     https_get := https_get sampleEnv;
     disk := disk sampleEnv;
     others := others sampleEnv |}.

(** The same as [sampleEnv], while another channel is refreshed during the
    second suspension. *)
Definition busyEnv : Env :=
  {| imageDir := imageDir sampleEnv;
     telegram_rss := telegram_rss sampleEnv;
     parseStringPromise := parseStringPromise sampleEnv;
     buildObject := buildObject sampleEnv;
     dateParse := dateParse sampleEnv;
     utcString := utcString sampleEnv;
     buildTime := buildTime sampleEnv;
     cacheTime := cacheTime sampleEnv;
     https_get := https_get sampleEnv;
     disk := disk sampleEnv;
     others := fun k c =>
       match k with
       | 1%nat => <[js "other" := {| xml := js "<rss/>"; lastUpdate := 7 |}]> c
       | _ => c
       end |}.

(** The cache after [n] suspensions of a run that wrote nothing itself. *)
Fixpoint afterOthers (env : Env) (n : nat) (cache : Cache) : Cache :=
  match n with
  | O => cache
  | S m => others env m (afterOthers env m cache)
  end.

(** No other task writes the entry of the channel: one writer per key. *)
Definition soleWriter (env : Env) (channel : jsstring) : Prop :=
  forall k (c : Cache), others env k c !! channel = c !! channel.

(** [p] occurs in [s] as a substring. *)
Fixpoint occurs (p s : jsstring) : bool :=
  Sanitize.startsWith p s
  || match s with
     | [] => false
     | _ :: rest => occurs p rest
     end.

(** What the four one-character replacements do to one character. *)
Definition escapeChar (c : Z) : jsstring :=
  if c =? Sanitize.lt then js "&lt;"
  else if c =? Sanitize.gt then js "&gt;"
  else if c =? Sanitize.quot then js "&quot;"
  else if c =? Sanitize.apos then js "&apos;"
  else [c].

(** The characters the escaping replaces. *)
Definition isSpecial (c : Z) : bool := (c =? Sanitize.amp) || isMarkup c.

(** The escaped form of a text, before stripping and trimming. *)
Definition escaped (s : jsstring) : jsstring :=
  flat_map escapeChar (Sanitize.replaceAmp s).

(** ** The rest of the program *)

(** *** getRandomInterval (lines 31-34) *)


(** *** The scheduler tick: updateRss in startChannelTimer (lines 299-335) *)





(** *** The request handler (lines 338-391) *)












(** *** Vocabulary of the further statements *)

(** Every [&] of the text begins a reference [&name;]. *)
Fixpoint refsOk (s : jsstring) : bool :=
  match s with
  | [] => true
  | c :: rest =>
      (if c =? Sanitize.amp then followedByReference rest else true) && refsOk rest
  end.

(** The sum of the delays of a trace. *)
Fixpoint totalWait (tr : list Event) : Z :=
  match tr with
  | [] => 0
  | EvWait ms :: rest => ms + totalWait rest
  | _ :: rest => totalWait rest
  end.

(** The names a stored download can have. *)
Definition imageNames : list jsstring :=
  [js "image.jpg"; js "image.png"; js "image.gif"; js "image.webp"].

Definition mimeTypes : list jsstring :=
  [js "image/jpeg"; js "image/png"; js "image/gif"; js "image/webp"].


(** A sanitized text: no raw markup, valid characters only, trimmed. *)
Definition xmlSafe (s : jsstring) : bool :=
  rawFree s && forallb Sanitize.validXmlChar s
  && match s with [] => true | c :: _ => negb (Sanitize.isWhiteSpace c) end
  && match last s with None => true | Some c => negb (Sanitize.isWhiteSpace c) end.

(** A server whose three requests fail, then the sample PNG. *)
Definition slowServer (k : nat) : HttpOutcome :=
  match k with
  | 0%nat | 1%nat | 2%nat => RequestFailed (DownloadError (Z.of_nat k))
  | _ => Response200 samplePng
  end.



(** * Properties *)

(** ** The text sanitizer *)

Section SanitizeFacts.
Import Sanitize.

Lemma entityNames_eq :
  entityNames =
  [[97; 109; 112; 59]; [108; 116; 59]; [103; 116; 59];
   [113; 117; 111; 116; 59]; [97; 112; 111; 115; 59]].
Proof. reflexivity. Qed.

Lemma startsWith_app p r : startsWith p (p ++ r) = true.
Proof. induction p as [|x p IH]; simpl; [reflexivity|]. now rewrite Z.eqb_refl. Qed.

Lemma startsWith_inv p s : startsWith p s = true -> exists r, s = p ++ r.
Proof.
  revert s. induction p as [|x p IH]; intros s H.
  - now exists s.
  - destruct s as [|c s]; simpl in H; [discriminate|].
    apply andb_true_iff in H as [Hx Hp]. apply Z.eqb_eq in Hx. subst c.
    destruct (IH _ Hp) as [r ->]. now exists r.
Qed.

Lemma followedByEntity_inv r :
  followedByEntity r = true -> exists e r', In e entityNames /\ r = e ++ r'.
Proof.
  unfold followedByEntity. intros H. apply existsb_exists in H as (e & He & Hs).
  destruct (startsWith_inv _ _ Hs) as [r' ->]. now exists e, r'.
Qed.

Lemma followedByEntity_app e r :
  In e entityNames -> followedByEntity (e ++ r) = true.
Proof.
  intros He. unfold followedByEntity. apply existsb_exists.
  exists e. split; [assumption|apply startsWith_app].
Qed.

Lemma entity_plain e : In e entityNames -> forallb plain e = true.
Proof.
  rewrite entityNames_eq. simpl.
  intros [<-|[<-|[<-|[<-|[<-|[]]]]]]; reflexivity.
Qed.

Lemma entity_nonempty e : In e entityNames -> e <> [].
Proof.
  rewrite entityNames_eq. simpl.
  intros [<-|[<-|[<-|[<-|[<-|[]]]]]]; discriminate.
Qed.

Lemma plain_inv c :
  plain c = true ->
  (c =? amp) = false /\ isMarkup c = false /\ validXmlChar c = true /\ isWhiteSpace c = false.
Proof.
  unfold plain. rewrite !andb_true_iff, !negb_true_iff. tauto.
Qed.

Lemma transparent_entity g r :
  transparent g -> followedByEntity r = true -> followedByEntity (g r) = true.
Proof.
  intros Hg H. destruct (followedByEntity_inv _ H) as (e & r' & He & ->).
  rewrite (Hg e r' (entity_plain e He)). now apply followedByEntity_app.
Qed.

Lemma replaceAmp_transparent : transparent replaceAmp.
Proof.
  intros e r. induction e as [|c e IH]; simpl; intros H; [reflexivity|].
  apply andb_true_iff in H as [Hc He]. apply plain_inv in Hc as (Hc & _).
  rewrite Hc. simpl. now rewrite IH.
Qed.

Lemma flat_map_transparent (f : Z -> jsstring) :
  (forall c, plain c = true -> f c = [c]) -> transparent (flat_map f).
Proof.
  intros Hf e r. induction e as [|c e IH]; simpl; intros H; [reflexivity|].
  apply andb_true_iff in H as [Hc He]. rewrite (Hf c Hc). simpl. now rewrite IH.
Qed.

Lemma trimEnd_cons_keep c r :
  isWhiteSpace c = false -> trimEnd (c :: r) = c :: trimEnd r.
Proof. intros H. simpl. rewrite H. now destruct (trimEnd r). Qed.

Lemma trimEnd_transparent : transparent trimEnd.
Proof.
  intros e r. induction e as [|c e IH]; intros H; [reflexivity|].
  simpl in H. apply andb_true_iff in H as [Hc He].
  apply plain_inv in Hc as (_ & _ & _ & Hc).
  change ((c :: e) ++ r) with (c :: (e ++ r)).
  rewrite trimEnd_cons_keep by assumption. now rewrite IH.
Qed.

Lemma ampOk_plain_app e t : forallb plain e = true -> ampOk (e ++ t) = ampOk t.
Proof.
  induction e as [|c e IH]; simpl; intros H; [reflexivity|].
  apply andb_true_iff in H as [Hc He]. apply plain_inv in Hc as (Hc & _).
  rewrite Hc. simpl. now apply IH.
Qed.

Lemma ampOk_cons_other c t : (c =? amp) = false -> ampOk (c :: t) = ampOk t.
Proof. intros H. simpl. now rewrite H. Qed.

Lemma ampOk_entity_ref e t :
  In e entityNames -> ampOk (amp :: e ++ t) = ampOk t.
Proof.
  intros He. simpl. rewrite (followedByEntity_app e t He). simpl.
  apply ampOk_plain_app, entity_plain, He.
Qed.

(** The first replacement leaves no raw ampersand. *)
Lemma ampOk_replaceAmp s : ampOk (replaceAmp s) = true.
Proof.
  induction s as [|c r IH]; [reflexivity|]. simpl.
  destruct (c =? amp) eqn:Hc; simpl.
  - destruct (followedByEntity r) eqn:Hf; simpl.
    + rewrite Hc, IH, (transparent_entity _ _ replaceAmp_transparent Hf). reflexivity.
    + exact IH.
  - now rewrite Hc, IH.
Qed.

Lemma ampOk_flat_map (f : Z -> jsstring) s :
  (forall c, plain c = true -> f c = [c]) ->
  f amp = [amp] ->
  (forall c t, (c =? amp) = false -> ampOk t = true -> ampOk (f c ++ t) = true) ->
  ampOk s = true -> ampOk (flat_map f s) = true.
Proof.
  intros Hplain Hamp Hother. induction s as [|c r IH]; [reflexivity|].
  simpl. intros H. apply andb_true_iff in H as [Hc Hr].
  destruct (c =? amp) eqn:E.
  - apply Z.eqb_eq in E. subst c. rewrite Hamp. simpl.
    rewrite (transparent_entity _ _ (flat_map_transparent f Hplain) Hc).
    now rewrite IH.
  - apply Hother; [assumption|]. now apply IH.
Qed.

Lemma replaceChar_ampOk x e s :
  plain x = false -> (x =? amp) = false -> In e entityNames ->
  ampOk s = true -> ampOk (replaceChar x (amp :: e) s) = true.
Proof.
  intros Hx Hxa He. unfold replaceChar. apply ampOk_flat_map.
  - intros c Hc. destruct (c =? x) eqn:E; [|reflexivity].
    apply Z.eqb_eq in E. congruence.
  - rewrite Z.eqb_sym, Hxa. reflexivity.
  - intros c t Hc Ht. destruct (c =? x).
    + change ((amp :: e) ++ t) with (amp :: e ++ t). now rewrite ampOk_entity_ref.
    + simpl. now rewrite Hc.
Qed.

Lemma stripInvalid_flat_map s :
  stripInvalid s = flat_map (fun c => if validXmlChar c then [c] else []) s.
Proof.
  unfold stripInvalid. induction s as [|c r IH]; [reflexivity|].
  simpl. destruct (validXmlChar c); simpl; now rewrite IH.
Qed.

Lemma stripInvalid_ampOk s : ampOk s = true -> ampOk (stripInvalid s) = true.
Proof.
  rewrite stripInvalid_flat_map. apply ampOk_flat_map.
  - intros c Hc. apply plain_inv in Hc as (_ & _ & -> & _). reflexivity.
  - reflexivity.
  - intros c t Hc Ht. destruct (validXmlChar c); simpl; [now rewrite Hc|assumption].
Qed.

Lemma trimStart_ampOk s : ampOk s = true -> ampOk (trimStart s) = true.
Proof.
  induction s as [|c r IH]; [reflexivity|]. intros H. simpl.
  destruct (isWhiteSpace c); [|assumption].
  apply IH. simpl in H. now apply andb_true_iff in H as [_ H].
Qed.

Lemma trimEnd_ampOk s : ampOk s = true -> ampOk (trimEnd s) = true.
Proof.
  induction s as [|c r IH]; [reflexivity|]. intros H.
  simpl in H. apply andb_true_iff in H as [Hc Hr]. specialize (IH Hr).
  destruct (c =? amp) eqn:E.
  - apply Z.eqb_eq in E. subst c.
    rewrite trimEnd_cons_keep by reflexivity. simpl.
    now rewrite (transparent_entity _ _ trimEnd_transparent Hc), IH.
  - simpl. destruct (trimEnd r) as [|d t] eqn:Et.
    + destruct (isWhiteSpace c); [reflexivity|]. simpl. now rewrite E.
    + rewrite ampOk_cons_other by assumption. exact IH.
Qed.

Lemma escapeAndStrip_ampOk s : ampOk (escapeAndStrip s) = true.
Proof.
  unfold escapeAndStrip. apply stripInvalid_ampOk.
  apply (replaceChar_ampOk apos [97; 112; 111; 115; 59]); try reflexivity; [rewrite entityNames_eq; simpl; tauto|].
  apply (replaceChar_ampOk quot [113; 117; 111; 116; 59]); try reflexivity; [rewrite entityNames_eq; simpl; tauto|].
  apply (replaceChar_ampOk gt [103; 116; 59]); try reflexivity; [rewrite entityNames_eq; simpl; tauto|].
  apply (replaceChar_ampOk lt [108; 116; 59]); try reflexivity; [rewrite entityNames_eq; simpl; tauto|].
  apply ampOk_replaceAmp.
Qed.

Lemma sanitizeString_ampOk s : ampOk (sanitizeString s) = true.
Proof.
  unfold sanitizeString, trim.
  apply trimEnd_ampOk, trimStart_ampOk, escapeAndStrip_ampOk.
Qed.

(** *** No markup character survives *)

Lemma noneOf_cons x xs c : noneOf (x :: xs) c = negb (c =? x) && noneOf xs c.
Proof. reflexivity. Qed.

Lemma replaceChar_noneOf x xs by_ s :
  forallb (noneOf xs) s = true ->
  forallb (noneOf (x :: xs)) by_ = true ->
  forallb (noneOf (x :: xs)) (replaceChar x by_ s) = true.
Proof.
  intros Hs Hby. unfold replaceChar. induction s as [|c r IH]; [reflexivity|].
  simpl in Hs. apply andb_true_iff in Hs as [Hc Hr].
  simpl. rewrite forallb_app, (IH Hr), andb_true_r.
  destruct (c =? x) eqn:E; [assumption|].
  simpl. now rewrite E, Hc.
Qed.

Lemma noneOf_markup c :
  noneOf [apos; quot; gt; lt] c = negb (isMarkup c).
Proof.
  unfold noneOf, isMarkup. simpl.
  destruct (c =? apos), (c =? quot), (c =? gt), (c =? lt); reflexivity.
Qed.

Lemma forallb_ext_in (P Q : Z -> bool) s :
  (forall c, P c = Q c) -> forallb P s = forallb Q s.
Proof. intros H. induction s as [|c r IH]; simpl; [reflexivity|]. now rewrite H, IH. Qed.

Lemma forallb_filter_keep (P Q : Z -> bool) s :
  forallb P s = true -> forallb P (List.filter Q s) = true.
Proof.
  induction s as [|c r IH]; [reflexivity|]. simpl. intros H.
  apply andb_true_iff in H as [Hc Hr].
  destruct (Q c); simpl; [now rewrite Hc, IH|now apply IH].
Qed.

Lemma forallb_trimStart (P : Z -> bool) s :
  forallb P s = true -> forallb P (trimStart s) = true.
Proof.
  induction s as [|c r IH]; [reflexivity|]. intros H. simpl.
  destruct (isWhiteSpace c); [|assumption].
  simpl in H. apply andb_true_iff in H as [_ H]. now apply IH.
Qed.

Lemma forallb_trimEnd (P : Z -> bool) s :
  forallb P s = true -> forallb P (trimEnd s) = true.
Proof.
  induction s as [|c r IH]; [reflexivity|]. intros H.
  simpl in H. apply andb_true_iff in H as [Hc Hr]. specialize (IH Hr).
  simpl. destruct (trimEnd r) as [|d t].
  - destruct (isWhiteSpace c); [reflexivity|]. simpl. now rewrite Hc.
  - simpl. simpl in IH. now rewrite Hc, IH.
Qed.

Lemma forallb_trim (P : Z -> bool) s :
  forallb P s = true -> forallb P (trim s) = true.
Proof. intros H. unfold trim. now apply forallb_trimEnd, forallb_trimStart. Qed.

Lemma escapeAndStrip_noMarkup s :
  forallb (fun c => negb (isMarkup c)) (escapeAndStrip s) = true.
Proof.
  rewrite (forallb_ext_in _ (noneOf [apos; quot; gt; lt])) by (intros; now rewrite noneOf_markup).
  unfold escapeAndStrip, stripInvalid. apply forallb_filter_keep.
  repeat (apply replaceChar_noneOf; [|reflexivity]).
  apply forallb_forall. reflexivity.
Qed.

Lemma stripInvalid_valid s : forallb validXmlChar (stripInvalid s) = true.
Proof.
  unfold stripInvalid. induction s as [|c r IH]; [reflexivity|].
  simpl. destruct (validXmlChar c) eqn:E; simpl; [now rewrite E|assumption].
Qed.

(** *** What leaves a text as it is *)

Lemma replaceAmp_id s : ampOk s = true -> replaceAmp s = s.
Proof.
  induction s as [|c r IH]; [reflexivity|]. simpl. intros H.
  apply andb_true_iff in H as [Hc Hr]. rewrite (IH Hr).
  destruct (c =? amp); [|reflexivity]. now rewrite Hc.
Qed.

Lemma replaceChar_id x by_ s :
  forallb (fun c => negb (c =? x)) s = true -> replaceChar x by_ s = s.
Proof.
  unfold replaceChar. induction s as [|c r IH]; [reflexivity|]. simpl. intros H.
  apply andb_true_iff in H as [Hc Hr]. apply negb_true_iff in Hc.
  now rewrite Hc, (IH Hr).
Qed.

Lemma stripInvalid_id s : forallb validXmlChar s = true -> stripInvalid s = s.
Proof.
  unfold stripInvalid. induction s as [|c r IH]; [reflexivity|]. simpl. intros H.
  apply andb_true_iff in H as [Hc Hr]. now rewrite Hc, (IH Hr).
Qed.

Lemma noMarkup_not x s :
  isMarkup x = true ->
  forallb (fun c => negb (isMarkup c)) s = true ->
  forallb (fun c => negb (c =? x)) s = true.
Proof.
  intros Hx. induction s as [|c r IH]; [reflexivity|]. simpl. intros H.
  apply andb_true_iff in H as [Hc Hr]. rewrite (IH Hr), andb_true_r.
  apply negb_true_iff. destruct (c =? x) eqn:E; [|reflexivity].
  apply Z.eqb_eq in E. subst c. rewrite Hx in Hc. discriminate.
Qed.

(** On raw-free text the five escaping replacements change nothing. *)
Lemma escapeAndStrip_rawFree s :
  rawFree s = true -> escapeAndStrip s = stripInvalid s.
Proof.
  unfold rawFree. intros H. apply andb_true_iff in H as [Ha Hm].
  unfold escapeAndStrip. rewrite (replaceAmp_id _ Ha).
  rewrite (replaceChar_id lt) by (now apply noMarkup_not).
  rewrite (replaceChar_id gt) by (now apply noMarkup_not).
  rewrite (replaceChar_id quot) by (now apply noMarkup_not).
  rewrite (replaceChar_id apos) by (now apply noMarkup_not).
  reflexivity.
Qed.

(** *** trim *)

Lemma trimStart_head s :
  match trimStart s with [] => True | c :: _ => isWhiteSpace c = false end.
Proof.
  induction s as [|c r IH]; simpl; [exact I|].
  destruct (isWhiteSpace c) eqn:E; [exact IH|exact E].
Qed.

Lemma trimStart_id s :
  match s with [] => True | c :: _ => isWhiteSpace c = false end ->
  trimStart s = s.
Proof. destruct s as [|c r]; [reflexivity|]. simpl. now intros ->. Qed.

Lemma trimEnd_head s :
  match s with [] => True | c :: _ => isWhiteSpace c = false end ->
  match trimEnd s with [] => True | c :: _ => isWhiteSpace c = false end.
Proof.
  destruct s as [|c r]; [trivial|]. intros H.
  rewrite trimEnd_cons_keep by assumption. exact H.
Qed.

Lemma trimEnd_idem s : trimEnd (trimEnd s) = trimEnd s.
Proof.
  induction s as [|c r IH]; [reflexivity|].
  change (trimEnd (c :: r))
    with (match trimEnd r with [] => if isWhiteSpace c then [] else [c] | t => c :: t end).
  destruct (trimEnd r) as [|d t] eqn:E.
  - destruct (isWhiteSpace c) eqn:Ec; [reflexivity|]. simpl. now rewrite Ec.
  - change (trimEnd (c :: d :: t))
      with (match trimEnd (d :: t) with [] => if isWhiteSpace c then [] else [c] | u => c :: u end).
    now rewrite IH.
Qed.

Lemma trim_idem s : trim (trim s) = trim s.
Proof.
  unfold trim.
  rewrite (trimStart_id (trimEnd (trimStart s))) by apply trimEnd_head, trimStart_head.
  apply trimEnd_idem.
Qed.

(** A sanitized text is a fixed point of the sanitizer. *)
Lemma sanitizeString_idem s : sanitizeString (sanitizeString s) = sanitizeString s.
Proof.
  assert (Hraw : rawFree (sanitizeString s) = true).
  { unfold rawFree. rewrite sanitizeString_ampOk. simpl.
    unfold sanitizeString. apply forallb_trim, escapeAndStrip_noMarkup. }
  unfold sanitizeString at 1. rewrite (escapeAndStrip_rawFree _ Hraw).
  rewrite stripInvalid_id.
  - unfold sanitizeString. apply trim_idem.
  - unfold sanitizeString, escapeAndStrip. apply forallb_trim, stripInvalid_valid.
Qed.

(** *** An entity inside a text *)

Lemma startsWith_before_amp e p r :
  forallb plain e = true -> startsWith e (p ++ amp :: r) = startsWith e p.
Proof.
  revert p. induction e as [|x e IH]; intros p H; [now destruct p|].
  simpl in H. apply andb_true_iff in H as [Hx He].
  apply plain_inv in Hx as (Hx & _).
  destruct p as [|c p]; simpl.
  - now rewrite Hx.
  - now rewrite IH.
Qed.

Lemma followedByEntity_before_amp p r :
  followedByEntity (p ++ amp :: r) = followedByEntity p.
Proof.
  unfold followedByEntity.
  assert (H : Forall (fun e => forallb plain e = true) entityNames).
  { apply List.Forall_forall. intros e He. now apply entity_plain. }
  induction H as [|e l He Hl IH]; [reflexivity|].
  simpl. now rewrite (startsWith_before_amp e p r He), IH.
Qed.

(** The lookahead of an earlier [&] never reaches past a later one. *)
Lemma replaceAmp_split p r :
  replaceAmp (p ++ amp :: r) = replaceAmp p ++ replaceAmp (amp :: r).
Proof.
  induction p as [|c p IH]; [reflexivity|].
  change ((c :: p) ++ amp :: r) with (c :: (p ++ amp :: r)).
  cbn [replaceAmp]. rewrite followedByEntity_before_amp, IH.
  destruct ((c =? amp) && negb (followedByEntity p)); [|reflexivity].
  now rewrite <- app_assoc.
Qed.

Lemma replaceAmp_entity pre e post :
  In e entityNames ->
  replaceAmp (pre ++ amp :: e ++ post) = replaceAmp pre ++ amp :: e ++ replaceAmp post.
Proof.
  intros He. rewrite replaceAmp_split. f_equal.
  cbn [replaceAmp]. rewrite (followedByEntity_app e post He). simpl.
  f_equal. apply replaceAmp_transparent, entity_plain, He.
Qed.

Lemma flat_map_entity (f : Z -> jsstring) pre e post :
  (forall c, plain c = true -> f c = [c]) -> f amp = [amp] ->
  In e entityNames ->
  flat_map f (pre ++ amp :: e ++ post) = flat_map f pre ++ amp :: e ++ flat_map f post.
Proof.
  intros Hplain Hamp He. rewrite flat_map_app. f_equal.
  simpl. rewrite Hamp. simpl. f_equal.
  apply flat_map_transparent; [assumption|]. apply entity_plain, He.
Qed.

Lemma replaceChar_entity x by_ pre e post :
  plain x = false -> (x =? amp) = false -> In e entityNames ->
  replaceChar x by_ (pre ++ amp :: e ++ post)
  = replaceChar x by_ pre ++ amp :: e ++ replaceChar x by_ post.
Proof.
  intros Hx Hxa He. unfold replaceChar. apply flat_map_entity; [| |assumption].
  - intros c Hc. destruct (c =? x) eqn:E; [|reflexivity].
    apply Z.eqb_eq in E. congruence.
  - rewrite Z.eqb_sym, Hxa. reflexivity.
Qed.

Lemma stripInvalid_entity pre e post :
  In e entityNames ->
  stripInvalid (pre ++ amp :: e ++ post) = stripInvalid pre ++ amp :: e ++ stripInvalid post.
Proof.
  intros He. rewrite !stripInvalid_flat_map. apply flat_map_entity; [|reflexivity|assumption].
  intros c Hc. apply plain_inv in Hc as (_ & _ & -> & _). reflexivity.
Qed.

(** An already-encoded entity goes through the whole chain unchanged, and the
    text on either side of it is escaped on its own. *)
Lemma escapeAndStrip_entity pre e post :
  In e entityNames ->
  escapeAndStrip (pre ++ amp :: e ++ post)
  = escapeAndStrip pre ++ amp :: e ++ escapeAndStrip post.
Proof.
  intros He. unfold escapeAndStrip.
  rewrite replaceAmp_entity by assumption.
  rewrite (replaceChar_entity lt) by (reflexivity || assumption).
  rewrite (replaceChar_entity gt) by (reflexivity || assumption).
  rewrite (replaceChar_entity quot) by (reflexivity || assumption).
  rewrite (replaceChar_entity apos) by (reflexivity || assumption).
  now apply stripInvalid_entity.
Qed.

(** *** No doubly escaped ampersand is created *)

Lemma startsWith_app_l p u t : startsWith p u = true -> startsWith p (u ++ t) = true.
Proof.
  revert u. induction p as [|x p IH]; intros u H; [reflexivity|].
  destruct u as [|c u]; [discriminate|]. simpl in *.
  apply andb_true_iff in H as [-> H]. now apply IH.
Qed.

Lemma occurs_app_l p u t : occurs p u = true -> occurs p (u ++ t) = true.
Proof.
  induction u as [|c u IH]; simpl.
  - rewrite orb_false_r. intros H. destruct p; [|discriminate]. now destruct t.
  - intros H. apply orb_true_iff in H as [H|H].
    + change (c :: u ++ t) with ((c :: u) ++ t). now rewrite (startsWith_app_l _ _ t H).
    + rewrite (IH H). apply orb_true_r.
Qed.

Lemma occurs_app_r p u t : occurs p t = true -> occurs p (u ++ t) = true.
Proof.
  intros H. induction u as [|c u IH]; [exact H|].
  simpl. rewrite IH. apply orb_true_r.
Qed.

Lemma trimStart_suffix s : exists u, s = u ++ trimStart s.
Proof.
  induction s as [|c r [u IH]]; [now exists []|]. simpl.
  destruct (isWhiteSpace c); [|now exists []].
  exists (c :: u). simpl. now rewrite <- IH.
Qed.

Lemma trimEnd_prefix s : exists r, s = trimEnd s ++ r.
Proof.
  induction s as [|c r [t IH]]; [now exists []|]. simpl.
  destruct (trimEnd r) as [|d u] eqn:E.
  - destruct (isWhiteSpace c); [now exists (c :: r)|].
    exists t. simpl. now rewrite IH at 1.
  - exists t. simpl. now rewrite IH at 1.
Qed.

Lemma occurs_trim p s : occurs p (trim s) = true -> occurs p s = true.
Proof.
  unfold trim. intros H.
  destruct (trimStart_suffix s) as [u Hu].
  destruct (trimEnd_prefix (trimStart s)) as [r Hr].
  rewrite Hu. apply occurs_app_r. rewrite Hr. now apply occurs_app_l.
Qed.

Lemma escapeChar_replaceChars s :
  replaceChar apos (js "&apos;")
    (replaceChar quot (js "&quot;")
       (replaceChar gt (js "&gt;")
          (replaceChar lt (js "&lt;") s)))
  = flat_map escapeChar s.
Proof.
  unfold replaceChar. induction s as [|c r IH]; [reflexivity|].
  cbn [flat_map]. rewrite !flat_map_app, IH. f_equal.
  unfold escapeChar.
  destruct (Z.eqb_spec c lt) as [->|Hlt]; [reflexivity|].
  cbn [flat_map app]. destruct (Z.eqb_spec c gt) as [->|Hgt]; [reflexivity|].
  cbn [flat_map app]. destruct (Z.eqb_spec c quot) as [->|Hquot]; [reflexivity|].
  cbn [flat_map app]. now destruct (Z.eqb_spec c apos) as [->|Hapos].
Qed.

Lemma escapeAndStrip_escaped s : escapeAndStrip s = stripInvalid (escaped s).
Proof. unfold escapeAndStrip, escaped. now rewrite escapeChar_replaceChars. Qed.

(** The escaped text, one input character at a time: the piece emitted for a
    character is that character, or starts with [&] and holds no other. *)
Lemma escaped_cons c r :
  exists rest,
    escaped (c :: r) = (if isSpecial c then amp else c) :: rest ++ escaped r
    /\ forallb (fun x => negb (x =? amp)) rest = true
    /\ forallb validXmlChar rest = true
    /\ (isSpecial c = false -> rest = []).
Proof.
  unfold escaped, isSpecial, isMarkup. cbn [replaceAmp].
  assert (Hdone : forall (piece rest : jsstring) (special : bool) t,
             piece = amp :: rest -> special = true ->
             forallb (fun x => negb (x =? amp)) rest = true ->
             forallb validXmlChar rest = true ->
             exists rest',
               piece ++ t = (if special then amp else c) :: rest' ++ t
               /\ forallb (fun x => negb (x =? amp)) rest' = true
               /\ forallb validXmlChar rest' = true
               /\ (special = false -> rest' = [])).
  { intros piece rest special t -> -> H1 H2. exists rest. repeat split; try assumption.
    discriminate. }
  destruct (Z.eqb_spec c amp) as [->|Hamp].
  - cbn [andb orb]. destruct (followedByEntity r); cbn [negb].
    + apply (Hdone [amp] [] true); reflexivity.
    + rewrite flat_map_app. apply (Hdone (js "&amp;") (js "amp;") true); reflexivity.
  - cbn [andb flat_map orb]. unfold escapeChar.
    destruct (Z.eqb_spec c lt) as [->|Hlt];
      [apply (Hdone (js "&lt;") (js "lt;") true); reflexivity|].
    destruct (Z.eqb_spec c gt) as [->|Hgt];
      [apply (Hdone (js "&gt;") (js "gt;") true); reflexivity|].
    destruct (Z.eqb_spec c quot) as [->|Hquot];
      [apply (Hdone (js "&quot;") (js "quot;") true); reflexivity|].
    destruct (Z.eqb_spec c apos) as [->|Hapos];
      [apply (Hdone (js "&apos;") (js "apos;") true); reflexivity|].
    exists []. repeat split.
Qed.

Lemma escaped_valid s : forallb validXmlChar s = true -> forallb validXmlChar (escaped s) = true.
Proof.
  induction s as [|c r IH]; [reflexivity|]. intros H.
  simpl in H. apply andb_true_iff in H as [Hc Hr].
  destruct (escaped_cons c r) as (rest & -> & _ & Hvalid & _).
  cbn [forallb]. rewrite forallb_app, Hvalid, (IH Hr).
  destruct (isSpecial c); [reflexivity|]. now rewrite Hc.
Qed.

(** Plain text at the front of the escaped text was at the front of the
    text. *)
Lemma startsWith_escaped e s :
  forallb (fun x => negb (isSpecial x)) e = true ->
  startsWith e (escaped s) = true -> startsWith e s = true.
Proof.
  revert s. induction e as [|x e IH]; intros s He H; [reflexivity|].
  simpl in He. apply andb_true_iff in He as [Hx He]. apply negb_true_iff in Hx.
  destruct s as [|c r]; [discriminate|].
  destruct (escaped_cons c r) as (rest & Heq & _ & _ & Hrest). rewrite Heq in H.
  cbn [startsWith] in *. apply andb_true_iff in H as [Hhead Htail].
  destruct (isSpecial c) eqn:Hc.
  - apply Z.eqb_eq in Hhead. subst x. discriminate.
  - rewrite Hhead. rewrite (Hrest eq_refl) in Htail. now apply IH.
Qed.

Lemma startsWith_doubleAmp_escaped s :
  startsWith (js "&amp;amp;") (escaped s) = true -> startsWith (js "&amp;amp;") s = true.
Proof.
  destruct s as [|c r]; [discriminate|].
  unfold escaped. cbn [replaceAmp].
  destruct (Z.eqb_spec c amp) as [->|Hamp].
  - cbn [andb]. destruct (followedByEntity r) eqn:Hf; cbn [negb].
    + change (flat_map escapeChar (amp :: replaceAmp r)) with (amp :: escaped r).
      change (js "&amp;amp;") with (amp :: js "amp;amp;"). cbn [startsWith].
      rewrite Z.eqb_refl. cbn [andb]. now apply startsWith_escaped.
    + change (flat_map escapeChar (js "&amp;" ++ replaceAmp r))
        with (js "&amp;" ++ escaped r).
      intros H. assert (Hamp : startsWith (js "amp;") (escaped r) = true) by exact H.
      apply startsWith_escaped in Hamp; [|reflexivity].
      destruct (startsWith_inv _ _ Hamp) as [r' ->].
      rewrite followedByEntity_app in Hf; [discriminate|]. simpl. tauto.
  - cbn [andb flat_map]. unfold escapeChar.
    destruct (Z.eqb_spec c lt) as [->|Hlt]; [discriminate|].
    destruct (Z.eqb_spec c gt) as [->|Hgt]; [discriminate|].
    destruct (Z.eqb_spec c quot) as [->|Hquot]; [discriminate|].
    destruct (Z.eqb_spec c apos) as [->|Hapos]; [discriminate|].
    change (js "&amp;amp;") with (amp :: js "amp;amp;"). cbn [startsWith app].
    apply Z.eqb_neq in Hamp. rewrite Z.eqb_sym, Hamp. discriminate.
Qed.

Lemma occurs_skip p u t :
  forallb (fun x => negb (x =? amp)) u = true ->
  occurs (amp :: p) (u ++ t) = occurs (amp :: p) t.
Proof.
  induction u as [|c u IH]; [reflexivity|]. intros H.
  simpl in H. apply andb_true_iff in H as [Hc Hu]. apply negb_true_iff in Hc.
  cbn [app occurs startsWith]. rewrite Z.eqb_sym, Hc. cbn [andb orb]. now apply IH.
Qed.

Lemma occurs_doubleAmp_escaped s :
  occurs (js "&amp;amp;") (escaped s) = true -> occurs (js "&amp;amp;") s = true.
Proof.
  induction s as [|c r IH]; [discriminate|]. intros H.
  cbn [occurs]. apply orb_true_iff.
  destruct (startsWith (js "&amp;amp;") (escaped (c :: r))) eqn:Hhead.
  - left. now apply startsWith_doubleAmp_escaped.
  - right. apply IH.
    destruct (escaped_cons c r) as (rest & Heq & Hrest & _). rewrite Heq in H, Hhead.
    cbn [occurs] in H. rewrite Hhead in H. cbn [orb] in H.
    change (js "&amp;amp;") with (amp :: js "amp;amp;") in H |- *.
    now rewrite occurs_skip in H.
Qed.

(** For a text that holds no character the sanitizer strips, the sanitized
    text holds [&amp;amp;] only if the text did. *)
Lemma sanitizeString_doubleAmp s :
  forallb validXmlChar s = true ->
  occurs (js "&amp;amp;") (sanitizeString s) = true ->
  occurs (js "&amp;amp;") s = true.
Proof.
  intros Hvalid H. unfold sanitizeString in H. apply occurs_trim in H.
  rewrite escapeAndStrip_escaped, stripInvalid_id in H by now apply escaped_valid.
  now apply occurs_doubleAmp_escaped.
Qed.

Lemma sanitizeXmlText_string x :
  sanitizeXmlText (JsString x) = Ok (sanitizeString x).
Proof. destruct x; reflexivity. Qed.

(** C4, as the code has it. Sanitizing is idempotent: sanitizing a
    sanitized text gives it back, for every string and so for those already
    free of raw [&], [<], [>] and quotes. The entities [&amp;], [&lt;],
    [&gt;], [&quot;], [&apos;] are recognised and not escaped again: a text
    free of raw characters only loses its strippable characters and outer
    white space; an entity inside any text is copied as it is, so an [&amp;]
    comes out as [&amp;]; and a text that holds no strippable character and
    no [&amp;amp;] is sanitized to a text that holds no [&amp;amp;]. *)
Theorem sanitize_idempotent_no_double_escape :
  (forall x, exists y,
      sanitizeXmlText (JsString x) = Ok y /\ sanitizeXmlText (JsString y) = Ok y)
  /\ (forall x, rawFree x = true ->
        sanitizeXmlText (JsString x) = Ok (trim (stripInvalid x)))
  /\ (forall pre e post, In e entityNames ->
        sanitizeXmlText (JsString (pre ++ amp :: e ++ post))
        = Ok (trim (escapeAndStrip pre ++ amp :: e ++ escapeAndStrip post)))
  /\ (forall x y,
        forallb validXmlChar x = true ->
        occurs (js "&amp;amp;") x = false ->
        sanitizeXmlText (JsString x) = Ok y ->
        occurs (js "&amp;amp;") y = false)
  /\ sanitizeXmlText (JsString (js "&amp;")) = Ok (js "&amp;")
  /\ sanitizeXmlText (JsString (js "Tom &amp; Jerry")) = Ok (js "Tom &amp; Jerry").
Proof.
  split; [|split; [|split; [|split; [|split; reflexivity]]]].
  - intros x. exists (sanitizeString x).
    now rewrite !sanitizeXmlText_string, sanitizeString_idem.
  - intros x Hx. rewrite sanitizeXmlText_string. unfold sanitizeString.
    now rewrite escapeAndStrip_rawFree.
  - intros pre e post He. rewrite sanitizeXmlText_string. unfold sanitizeString.
    now rewrite escapeAndStrip_entity.
  - intros x y Hvalid Hnone H. rewrite sanitizeXmlText_string in H. injection H as <-.
    destruct (occurs (js "&amp;amp;") (sanitizeString x)) eqn:E; [|reflexivity].
    rewrite (sanitizeString_doubleAmp x Hvalid E) in Hnone. discriminate.
Qed.

Lemma sanitize_idempotent_no_double_escape_witness :
  rawFree (js "Tom &amp; Jerry ") = true
  /\ In (js "amp;") entityNames
  /\ sanitizeXmlText (JsString (js "Tom &amp; Jerry ")) = Ok (js "Tom &amp; Jerry")
  /\ sanitizeXmlText (JsString (js "a<b" ++ amp :: js "amp;" ++ js "c>d"))
     = Ok (js "a&lt;b&amp;c&gt;d")
  /\ occurs (js "&amp;amp;") (js "R&amp;D & <b>") = false
  /\ occurs (js "&amp;amp;") (js "R&amp;D &amp; &lt;b&gt;") = false.
Proof.
  destruct sanitize_idempotent_no_double_escape as (_ & Hraw & Hent & Hnone & _).
  assert (Hin : In (js "amp;") entityNames) by (simpl; tauto).
  split; [reflexivity|]. split; [exact Hin|]. split; [|split; [|split]].
  - rewrite (Hraw (js "Tom &amp; Jerry ") eq_refl). reflexivity.
  - rewrite (Hent (js "a<b") (js "amp;") (js "c>d") Hin). reflexivity.
  - reflexivity.
  - apply (Hnone (js "R&amp;D & <b>") (js "R&amp;D &amp; &lt;b&gt;"));
      reflexivity.
Defined.

(** C4 as stated fails: the text [&amp;], an emoji, [amp;] holds [&amp;]
    and no [&amp;amp;]; its [&] is recognised and kept, the two surrogates
    of the emoji are stripped, and what remains is [&amp;amp;]. A text that
    holds [&amp;amp;] already keeps it as well. *)
Lemma sanitize_double_amp_counterexample :
  occurs (js "&amp;") (js "&amp;" ++ [55357; 56832] ++ js "amp;") = true
  /\ occurs (js "&amp;amp;") (js "&amp;" ++ [55357; 56832] ++ js "amp;") = false
  /\ sanitizeXmlText (JsString (js "&amp;" ++ [55357; 56832] ++ js "amp;"))
     = Ok (js "&amp;amp;")
  /\ sanitizeXmlText (JsString (js "&amp;amp;")) = Ok (js "&amp;amp;").
Proof. repeat split. Qed.

End SanitizeFacts.

(** ** The ordering key *)

Section PostNumberFacts.

Lemma parseInt_acc digits acc :
  fold_left (fun a d => 10 * a + (d - 48)) digits acc
  = acc * 10 ^ Z.of_nat (length digits) + decimalValue digits.
Proof.
  revert acc. induction digits as [|d r IH]; intros acc.
  - simpl. lia.
  - cbn [fold_left decimalValue length]. rewrite IH.
    rewrite Nat2Z.inj_succ, Z.pow_succ_r by lia. ring.
Qed.

Lemma parseInt_decimalValue digits : parseInt digits = decimalValue digits.
Proof. unfold parseInt. rewrite parseInt_acc. lia. Qed.

Lemma forallb_isDigit_slash p r : forallb isDigit (p ++ slash :: r) = false.
Proof.
  induction p as [|c p IH]; [reflexivity|].
  simpl. rewrite IH. apply andb_false_r.
Qed.

Lemma matchTrailingNumber_suffix pre digits :
  digits <> [] -> forallb isDigit digits = true ->
  matchTrailingNumber (pre ++ slash :: digits) = Some digits.
Proof.
  intros Hne Hd. induction pre as [|c pre IH].
  - simpl. rewrite Hd. destruct digits; [congruence|reflexivity].
  - change ((c :: pre) ++ slash :: digits) with (c :: (pre ++ slash :: digits)).
    cbn [matchTrailingNumber]. rewrite forallb_isDigit_slash, andb_false_r. exact IH.
Qed.

Lemma matchTrailingNumber_inv link digits :
  matchTrailingNumber link = Some digits ->
  exists pre, link = pre ++ slash :: digits
              /\ digits <> [] /\ forallb isDigit digits = true.
Proof.
  induction link as [|c rest IH]; [discriminate|].
  cbn [matchTrailingNumber].
  destruct ((c =? slash) && negb (Nat.eqb (length rest) 0) && forallb isDigit rest) eqn:E.
  - intros [= <-]. apply andb_true_iff in E as [E Hd].
    apply andb_true_iff in E as [Hc Hn]. apply Z.eqb_eq in Hc. subst c.
    exists []. repeat split; [|assumption]. intros ->. discriminate.
  - intros H. destruct (IH H) as (pre & -> & Hne & Hd).
    exists (c :: pre). auto.
Qed.




End PostNumberFacts.

(** ** Content-type detection *)

Section MimeFacts.

Lemma everyByteMatches_app signature rest :
  everyByteMatches signature (signature ++ rest) = true.
Proof.
  induction signature as [|b sg IH]; [reflexivity|].
  simpl. now rewrite Z.eqb_refl.
Qed.

Lemma everyByteMatches_inv signature buffer :
  everyByteMatches signature buffer = true -> exists rest, buffer = signature ++ rest.
Proof.
  revert buffer. induction signature as [|b sg IH]; intros buffer H.
  - now exists buffer.
  - destruct buffer as [|c buffer]; [discriminate|]. simpl in H.
    apply andb_true_iff in H as [Hc Hs]. apply Z.eqb_eq in Hc. subst c.
    destruct (IH _ Hs) as [rest ->]. now exists rest.
Qed.

Lemma everyByteMatches_none signature buffer :
  (forall rest, buffer <> signature ++ rest) ->
  everyByteMatches signature buffer = false.
Proof.
  intros H. destruct (everyByteMatches signature buffer) eqn:E; [|reflexivity].
  destruct (everyByteMatches_inv _ _ E) as [rest ->]. now destruct (H rest).
Qed.

(** C8. A buffer that begins with FF D8 FF is classified image/jpeg, with
    89 50 4E 47 image/png, with 47 49 46 38 image/gif, with 52 49 46 46
    image/webp, and a buffer that begins with none of the four is classified
    image/jpeg, the default. *)
Theorem detectMimeType_spec :
  (forall rest, detectMimeType (jpegMagic ++ rest) = js "image/jpeg")
  /\ (forall rest, detectMimeType (pngMagic ++ rest) = js "image/png")
  /\ (forall rest, detectMimeType (gifMagic ++ rest) = js "image/gif")
  /\ (forall rest, detectMimeType (webpMagic ++ rest) = js "image/webp")
  /\ (forall buffer,
         (forall magic rest,
             In magic [jpegMagic; pngMagic; gifMagic; webpMagic] ->
             buffer <> magic ++ rest) ->
         detectMimeType buffer = js "image/jpeg").
Proof.
  repeat split; try (intros rest; reflexivity).
  intros buffer H. unfold detectMimeType, signatures. cbn [firstMatching].
  rewrite !everyByteMatches_none; [reflexivity| | | |];
    intros rest; apply H; simpl; tauto.
Qed.

Lemma detectMimeType_spec_witness :
  detectMimeType [0; 1; 2; 3] = js "image/jpeg"
  /\ detectMimeType [] = js "image/jpeg".
Proof.
  destruct detectMimeType_spec as (_ & _ & _ & _ & Hdefault).
  split; apply Hdefault; intros magic rest Hin Heq; simpl in Hin;
    repeat (destruct Hin as [<-|Hin]; [discriminate Heq|]); exact Hin.
Defined.

End MimeFacts.

(** ** The retry loops *)

Section RetryFacts.
Context {A : Type}.
Variable call : Event.
Variable op : nat -> Result A.
Variable retries : nat.
Variable delay : Z.

Lemma retryLoop_step fuel attempt :
  retryLoop call op retries delay (S fuel) attempt
  = match op attempt with
    | Ok a => (Return a, [call])
    | Err error =>
        if Nat.eqb attempt (retries - 1)
        then (Throw error, [call])
        else
          let '(c, tr) := retryLoop call op retries delay fuel (S attempt) in
          (c, call :: EvWait (delay * 2 ^ Z.of_nat attempt) :: tr)
    end.
Proof. reflexivity. Qed.

(** The loop from [attempt] on, when its first success comes [k] calls later. *)
Lemma retryLoop_success fuel attempt k a :
  (attempt + k < retries)%nat -> (attempt + fuel = retries)%nat ->
  (forall j, (j < k)%nat -> exists e, op (attempt + j)%nat = Err e) ->
  op (attempt + k)%nat = Ok a ->
  retryLoop call op retries delay fuel attempt
  = (Return a, retryTrace call delay attempt k ++ [call]).
Proof.
  revert fuel attempt. induction k as [|k IH]; intros fuel attempt Hlt Hfuel Hfail Hok.
  - destruct fuel as [|fuel]; [lia|]. simpl.
    rewrite Nat.add_0_r in Hok. now rewrite Hok.
  - destruct fuel as [|fuel]; [lia|]. rewrite retryLoop_step. cbn [retryTrace].
    destruct (Hfail 0%nat ltac:(lia)) as [e He]. rewrite Nat.add_0_r in He. rewrite He.
    destruct (Nat.eqb_spec attempt (retries - 1)); [lia|].
    rewrite (IH fuel (S attempt)); [reflexivity|lia|lia| |].
    + intros j Hj. destruct (Hfail (S j) ltac:(lia)) as [e' He'].
      exists e'. now rewrite <- He', Nat.add_succ_comm.
    + now rewrite <- Hok, Nat.add_succ_comm.
Qed.

(** The loop from [attempt] on, when every remaining call fails. *)
Lemma retryLoop_exhausted fuel attempt last :
  (attempt + S fuel = retries)%nat ->
  (forall j, (attempt <= j < retries)%nat -> exists e, op j = Err e) ->
  op (retries - 1)%nat = Err last ->
  retryLoop call op retries delay (S fuel) attempt
  = (Throw last, retryTrace call delay attempt fuel ++ [call]).
Proof.
  revert attempt. induction fuel as [|fuel IH]; intros attempt Hfuel Hfail Hlast.
  - cbn [retryLoop retryTrace].
    assert (attempt = retries - 1)%nat as -> by lia.
    rewrite Hlast, Nat.eqb_refl. reflexivity.
  - rewrite retryLoop_step. cbn [retryTrace].
    destruct (Hfail attempt ltac:(lia)) as [e He]. rewrite He.
    destruct (Nat.eqb_spec attempt (retries - 1)); [lia|].
    rewrite (IH (S attempt)); [reflexivity|lia| |assumption].
    intros j Hj. apply Hfail. lia.
Qed.

End RetryFacts.

Lemma countRequests_retryTrace call delay from k :
  match call with EvWait _ => False | _ => True end ->
  countRequests (retryTrace call delay from k ++ [call]) = S k.
Proof.
  intros Hcall. unfold countRequests. revert from.
  induction k as [|k IH]; intros from; cbn [retryTrace].
  - destruct call; simpl; [reflexivity|reflexivity|contradiction].
  - specialize (IH (S from)). destruct call; simpl in *; try contradiction; now rewrite IH.
Qed.

(** ** The media store *)

Section MediaFacts.
Variable imageDir : jsstring.

Lemma dirEntries_ensure (fs : FS) d d' :
  dirEntries (ensureDirectoryExists fs d) d' = dirEntries fs d'.
Proof.
  unfold dirEntries, ensureDirectoryExists.
  destruct (fs !! d) eqn:E; [reflexivity|].
  destruct (decide (d = d')) as [->|Hne].
  - now rewrite lookup_insert_eq, E.
  - now rewrite lookup_insert_ne.
Qed.

Lemma dirEntries_withPostDir (fs : FS) channel postNumber d :
  dirEntries (withPostDir fs imageDir channel postNumber) d = dirEntries fs d.
Proof. unfold withPostDir. now rewrite !dirEntries_ensure. Qed.

(** The call that finds nothing stored runs the download loop. *)
Lemma downloadImage_fresh (fs : FS) https_get imageUrl channel postNumber retries delay :
  dirEntries fs (postDirOf imageDir channel postNumber) = [] ->
  downloadImage imageDir fs https_get imageUrl channel postNumber retries delay
  = match retryLoop (EvGet imageUrl)
            (downloadAttempt (withPostDir fs imageDir channel postNumber) https_get
               (postDirOf imageDir channel postNumber) channel postNumber)
            retries delay retries 0%nat with
    | (Return (imageData, fs3), tr) => (Return imageData, fs3, tr)
    | (Throw e, tr) => (Throw e, withPostDir fs imageDir channel postNumber, tr)
    | (ReturnUndefined, tr) =>
        (ReturnUndefined, withPostDir fs imageDir channel postNumber, tr)
    end.
Proof.
  intros Hdir. unfold downloadImage, readdirSync.
  fold (postDirOf imageDir channel postNumber).
  fold (withPostDir fs imageDir channel postNumber).
  now rewrite dirEntries_withPostDir, Hdir.
Qed.

(** The call that finds a file returns its metadata at once. *)
Lemma downloadImage_stored (fs : FS) https_get imageUrl channel postNumber retries delay
    existingFile buffer others :
  dirEntries fs (postDirOf imageDir channel postNumber) = (existingFile, buffer) :: others ->
  downloadImage imageDir fs https_get imageUrl channel postNumber retries delay
  = (Return {| path := pathJoin [postDirOf imageDir channel postNumber; existingFile];
               filename := existingFile;
               size := Z.of_nat (length buffer);
               mimeType := detectMimeType buffer;
               relativePath :=
                 pathJoin [js "images"; channel; numberToString postNumber; existingFile] |},
     withPostDir fs imageDir channel postNumber, []).
Proof.
  intros Hdir. unfold downloadImage, readdirSync, readFileSync.
  fold (postDirOf imageDir channel postNumber).
  fold (withPostDir fs imageDir channel postNumber).
  rewrite dirEntries_withPostDir, Hdir. cbn [List.map fst fileData].
  unfold jsstring_eqb. now rewrite bool_decide_eq_true_2.
Qed.

End MediaFacts.

Lemma downloadImage_first_success (imageDir : jsstring) (fs : FS) https_get imageUrl channel
    postNumber retries delay k buffer :
  dirEntries fs (postDirOf imageDir channel postNumber) = [] ->
  (k < retries)%nat ->
  requestsFailBefore https_get k ->
  https_get k = Response200 buffer ->
  downloadImage imageDir fs https_get imageUrl channel postNumber retries delay
  = (Return (fst (storeResponse (withPostDir fs imageDir channel postNumber)
                    (postDirOf imageDir channel postNumber) channel postNumber buffer)),
     snd (storeResponse (withPostDir fs imageDir channel postNumber)
            (postDirOf imageDir channel postNumber) channel postNumber buffer),
     retryTrace (EvGet imageUrl) delay 0 k ++ [EvGet imageUrl]).
Proof.
  intros Hdir Hk Hfail Hok.
  rewrite downloadImage_fresh by assumption.
  rewrite (retryLoop_success _ _ _ _ retries 0%nat k
             (storeResponse (withPostDir fs imageDir channel postNumber)
                (postDirOf imageDir channel postNumber) channel postNumber buffer));
    [now destruct (storeResponse _ _ _ _ _)|lia|lia| |].
  - intros j Hj. destruct (Hfail j Hj) as [e He]. exists e.
    unfold downloadAttempt. simpl. now rewrite He.
  - unfold downloadAttempt. simpl. now rewrite Hok.
Qed.

Lemma downloadImage_exhausted (imageDir : jsstring) (fs : FS) https_get imageUrl channel
    postNumber retries delay last :
  dirEntries fs (postDirOf imageDir channel postNumber) = [] ->
  (0 < retries)%nat ->
  requestsFailBefore https_get retries ->
  https_get (retries - 1)%nat = RequestFailed last ->
  downloadImage imageDir fs https_get imageUrl channel postNumber retries delay
  = (Throw last, withPostDir fs imageDir channel postNumber,
     retryTrace (EvGet imageUrl) delay 0 (retries - 1) ++ [EvGet imageUrl]).
Proof.
  intros Hdir Hpos Hfail Hlast.
  rewrite downloadImage_fresh by assumption.
  destruct retries as [|n]; [lia|].
  replace (S n - 1)%nat with n in * by lia.
  rewrite (retryLoop_exhausted _ _ (S n) _ n 0%nat last); [reflexivity|lia| |].
  - intros j Hj. destruct (Hfail j ltac:(lia)) as [e He]. exists e.
    unfold downloadAttempt. now rewrite He.
  - replace (S n - 1)%nat with n by lia. unfold downloadAttempt. now rewrite Hlast.
Qed.

(** C7. Both retry loops, the one around the upstream fetch and the one
    around the media download: when the operation first succeeds at its
    [k]-th call the loop returns that result and makes no further call; after
    each failed call that is not the last it waits [delay * 2 ^ attempt]; and
    when the last call fails too, the loop throws the error of that last
    call. The trace lists the calls and the waits. *)
Theorem retry_loops_spec :
  (forall telegram_rss channel retries delay k result,
      (k < retries)%nat ->
      failsBefore (telegram_rss channel) k ->
      telegram_rss channel k = Ok result ->
      safeTelegramRss telegram_rss channel retries delay
      = (Return result,
         retryTrace (EvTelegram channel) delay 0 k ++ [EvTelegram channel]))
  /\ (forall telegram_rss channel retries delay last,
         (0 < retries)%nat ->
         failsBefore (telegram_rss channel) retries ->
         telegram_rss channel (retries - 1)%nat = Err last ->
         safeTelegramRss telegram_rss channel retries delay
         = (Throw last,
            retryTrace (EvTelegram channel) delay 0 (retries - 1) ++ [EvTelegram channel]))
  /\ (forall imageDir (fs : FS) https_get imageUrl channel postNumber retries delay k buffer,
         dirEntries fs (postDirOf imageDir channel postNumber) = [] ->
         (k < retries)%nat ->
         requestsFailBefore https_get k ->
         https_get k = Response200 buffer ->
         downloadImage imageDir fs https_get imageUrl channel postNumber retries delay
         = (Return (fst (storeResponse (withPostDir fs imageDir channel postNumber)
                           (postDirOf imageDir channel postNumber) channel postNumber buffer)),
            snd (storeResponse (withPostDir fs imageDir channel postNumber)
                   (postDirOf imageDir channel postNumber) channel postNumber buffer),
            retryTrace (EvGet imageUrl) delay 0 k ++ [EvGet imageUrl]))
  /\ (forall imageDir (fs : FS) https_get imageUrl channel postNumber retries delay last,
         dirEntries fs (postDirOf imageDir channel postNumber) = [] ->
         (0 < retries)%nat ->
         requestsFailBefore https_get retries ->
         https_get (retries - 1)%nat = RequestFailed last ->
         downloadImage imageDir fs https_get imageUrl channel postNumber retries delay
         = (Throw last, withPostDir fs imageDir channel postNumber,
            retryTrace (EvGet imageUrl) delay 0 (retries - 1) ++ [EvGet imageUrl])).
Proof.
  split; [|split; [|split]].
  - intros tg channel retries delay k result Hk Hfail Hok.
    unfold safeTelegramRss. apply retryLoop_success; [lia|lia| |assumption].
    intros j Hj. now apply Hfail.
  - intros tg channel retries delay last Hpos Hfail Hlast.
    unfold safeTelegramRss. destruct retries as [|n]; [lia|].
    replace (S n - 1)%nat with n in * by lia.
    apply retryLoop_exhausted; [lia| |].
    + intros j Hj. apply Hfail. lia.
    + now replace (S n - 1)%nat with n by lia.
  - intros imageDir fs https_get imageUrl channel postNumber retries delay k buffer.
    apply downloadImage_first_success.
  - intros imageDir fs https_get imageUrl channel postNumber retries delay last.
    apply downloadImage_exhausted.
Qed.

Lemma retry_loops_spec_witness :
  safeTelegramRss flakyUpstream (js "news") 3 2000
  = (Return (js "<rss/>"),
     [EvTelegram (js "news"); EvWait 2000; EvTelegram (js "news"); EvWait 4000;
      EvTelegram (js "news")])
  /\ safeTelegramRss deadUpstream (js "news") 3 2000
     = (Throw (FetchError 2),
        [EvTelegram (js "news"); EvWait 2000; EvTelegram (js "news"); EvWait 4000;
         EvTelegram (js "news")])
  /\ snd (downloadImage (js "/srv/images") ∅ flakyServer (js "https://cdn/p.png")
            (js "news") 7 3 2000)
     = [EvGet (js "https://cdn/p.png"); EvWait 2000; EvGet (js "https://cdn/p.png")]
  /\ (let '(r, _, tr) := downloadImage (js "/srv/images") ∅ deadServer
                           (js "https://cdn/p.png") (js "news") 7 3 2000 in
      r = Throw (DownloadError 2)
      /\ tr = [EvGet (js "https://cdn/p.png"); EvWait 2000; EvGet (js "https://cdn/p.png");
               EvWait 4000; EvGet (js "https://cdn/p.png")]).
Proof.
  destruct retry_loops_spec as (Hok & Hex & Hdok & Hdex).
  split; [|split; [|split]].
  - apply (Hok flakyUpstream (js "news") 3%nat 2000 2%nat (js "<rss/>")); [lia| |reflexivity].
    intros j Hj. destruct j as [|[|j]]; [eexists; reflexivity|eexists; reflexivity|lia].
  - apply (Hex deadUpstream (js "news") 3%nat 2000 (FetchError 2)); [lia| |reflexivity].
    intros j _. eexists. reflexivity.
  - rewrite (Hdok (js "/srv/images") ∅ flakyServer (js "https://cdn/p.png") (js "news") 7
               3%nat 2000 1%nat samplePng); [reflexivity|reflexivity|lia| |reflexivity].
    intros j Hj. destruct j as [|j]; [eexists; reflexivity|lia].
  - rewrite (Hdex (js "/srv/images") ∅ deadServer (js "https://cdn/p.png") (js "news") 7
               3%nat 2000 (DownloadError 2)); [split; reflexivity|reflexivity|lia| |reflexivity].
    intros j _. eexists. reflexivity.
Defined.

(** ** Storing the same media item twice *)

Lemma retryLoop_return_inv {A : Type} call (op : nat -> Result A) retries delay
    fuel attempt a tr :
  (attempt + fuel = retries)%nat ->
  retryLoop call op retries delay fuel attempt = (Return a, tr) ->
  exists k, (attempt + k < retries)%nat
            /\ (forall j, (j < k)%nat -> exists e, op (attempt + j)%nat = Err e)
            /\ op (attempt + k)%nat = Ok a
            /\ tr = retryTrace call delay attempt k ++ [call].
Proof.
  revert attempt tr. induction fuel as [|fuel IH]; intros attempt tr Hfuel H.
  - discriminate.
  - rewrite retryLoop_step in H. destruct (op attempt) as [a'|e] eqn:Eop.
    + injection H as <- <-. exists 0%nat. rewrite Nat.add_0_r.
      repeat split; [lia| |assumption]. intros j Hj. lia.
    + destruct (Nat.eqb attempt (retries - 1)); [discriminate|].
      destruct (retryLoop call op retries delay fuel (S attempt)) as [c tr'] eqn:Erec.
      injection H as -> <-.
      destruct (IH (S attempt) tr' ltac:(lia) Erec) as (k & Hk & Hfail & Hok & ->).
      exists (S k). repeat split.
      * lia.
      * intros j Hj. destruct j as [|j].
        -- exists e. now rewrite Nat.add_0_r.
        -- destruct (Hfail j ltac:(lia)) as [e' He']. exists e'.
           now rewrite <- Nat.add_succ_comm.
      * now rewrite <- Nat.add_succ_comm.
Qed.

Section StoreTwice.
Variable imageDir : jsstring.

Lemma ensureDirectoryExists_present (fs : FS) d :
  is_Some (fs !! d) -> ensureDirectoryExists fs d = fs.
Proof. intros [x Hx]. unfold ensureDirectoryExists. now rewrite Hx. Qed.

Lemma ensureDirectoryExists_lookup (fs : FS) d : is_Some (ensureDirectoryExists fs d !! d).
Proof.
  unfold ensureDirectoryExists. destruct (fs !! d) eqn:E; [now rewrite E|].
  rewrite lookup_insert_eq. eauto.
Qed.

Lemma ensureDirectoryExists_mono (fs : FS) d d' :
  is_Some (fs !! d') -> is_Some (ensureDirectoryExists fs d !! d').
Proof.
  intros H. unfold ensureDirectoryExists. destruct (fs !! d) eqn:E; [assumption|].
  destruct (decide (d = d')) as [->|Hne].
  - rewrite lookup_insert_eq. eauto.
  - now rewrite lookup_insert_ne.
Qed.

Lemma withPostDir_present (fs : FS) channel postNumber :
  is_Some (fs !! pathJoin [imageDir; channel]) ->
  is_Some (fs !! postDirOf imageDir channel postNumber) ->
  withPostDir fs imageDir channel postNumber = fs.
Proof.
  intros H1 H2. unfold withPostDir.
  rewrite (ensureDirectoryExists_present fs _ H1).
  now apply ensureDirectoryExists_present.
Qed.

Lemma withPostDir_idem (fs : FS) channel postNumber :
  withPostDir (withPostDir fs imageDir channel postNumber) imageDir channel postNumber
  = withPostDir fs imageDir channel postNumber.
Proof.
  apply withPostDir_present; unfold withPostDir.
  - apply ensureDirectoryExists_mono, ensureDirectoryExists_lookup.
  - apply ensureDirectoryExists_lookup.
Qed.

Lemma writeFileSync_lookup (fs : FS) d name data d' :
  is_Some (fs !! d') -> is_Some (writeFileSync fs d name data !! d').
Proof.
  intros H. unfold writeFileSync. destruct (decide (d = d')) as [->|Hne].
  - rewrite lookup_insert_eq. eauto.
  - now rewrite lookup_insert_ne.
Qed.

Lemma dirEntries_writeFileSync (fs : FS) d name data :
  dirEntries (writeFileSync fs d name data) d = putFile name data (dirEntries fs d).
Proof. unfold writeFileSync, dirEntries at 1. now rewrite lookup_insert_eq. Qed.

(** Once a call has returned metadata, the same call again returns the same
    metadata from the disk, asks nothing of the network and leaves the disk as
    it is. *)
Lemma downloadImage_again (fs : FS) first second imageUrl channel postNumber
    retries delay imageData fs1 tr1 :
  downloadImage imageDir fs first imageUrl channel postNumber retries delay
  = (Return imageData, fs1, tr1) ->
  downloadImage imageDir fs1 second imageUrl channel postNumber retries delay
  = (Return imageData, fs1, []).
Proof.
  intros H.
  destruct (dirEntries fs (postDirOf imageDir channel postNumber))
    as [|[existingFile buffer] others] eqn:Hdir.
  - rewrite downloadImage_fresh in H by assumption.
    destruct (retryLoop _ _ _ _ _ _) as [[[d fs3]| |] tr] eqn:Eloop; try discriminate.
    injection H as -> -> ->.
    apply retryLoop_return_inv in Eloop as (k & _ & _ & Hok & _); [|lia].
    unfold downloadAttempt in Hok. simpl in Hok.
    destruct (first k) as [body|]; [|discriminate].
    injection Hok as Hd Hfs.
    assert (Hentries : dirEntries fs1 (postDirOf imageDir channel postNumber)
                       = [(js "image" ++ getExtFromMime (detectMimeType body), body)]).
    { rewrite <- Hfs. rewrite dirEntries_writeFileSync, dirEntries_withPostDir, Hdir.
      reflexivity. }
    rewrite (downloadImage_stored imageDir fs1 second imageUrl channel postNumber
               retries delay _ _ _ Hentries).
    rewrite withPostDir_present.
    + now rewrite <- Hd.
    + rewrite <- Hfs. apply writeFileSync_lookup.
      unfold withPostDir. apply ensureDirectoryExists_mono, ensureDirectoryExists_lookup.
    + rewrite <- Hfs. apply writeFileSync_lookup.
      unfold withPostDir. apply ensureDirectoryExists_lookup.
  - rewrite (downloadImage_stored imageDir fs first imageUrl channel postNumber
               retries delay _ _ _ Hdir) in H.
    injection H as <- <- <-.
    assert (Hentries : dirEntries (withPostDir fs imageDir channel postNumber)
                         (postDirOf imageDir channel postNumber)
                       = (existingFile, buffer) :: others)
      by now rewrite dirEntries_withPostDir.
    rewrite (downloadImage_stored imageDir _ second imageUrl channel postNumber
               retries delay _ _ _ Hentries).
    now rewrite withPostDir_idem.
Qed.

(** The requests of a call that returned metadata. *)
Lemma downloadImage_requests (fs : FS) first imageUrl channel postNumber
    retries delay imageData fs1 tr1 :
  downloadImage imageDir fs first imageUrl channel postNumber retries delay
  = (Return imageData, fs1, tr1) ->
  (dirEntries fs (postDirOf imageDir channel postNumber) <> [] -> tr1 = [])
  /\ (dirEntries fs (postDirOf imageDir channel postNumber) = [] ->
      exists k, (k < retries)%nat
                /\ requestsFailBefore first k
                /\ (exists buffer, first k = Response200 buffer)
                /\ tr1 = retryTrace (EvGet imageUrl) delay 0 k ++ [EvGet imageUrl]
                /\ countRequests tr1 = S k).
Proof.
  intros H. split.
  - intros Hne.
    destruct (dirEntries fs (postDirOf imageDir channel postNumber))
      as [|[existingFile buffer] others] eqn:Hdir; [congruence|].
    rewrite (downloadImage_stored imageDir fs first imageUrl channel postNumber
               retries delay _ _ _ Hdir) in H.
    now injection H.
  - intros Hdir. rewrite downloadImage_fresh in H by assumption.
    destruct (retryLoop _ _ _ _ _ _) as [[[d fs3]| |] tr] eqn:Eloop; try discriminate.
    injection H as -> -> ->.
    apply retryLoop_return_inv in Eloop as (k & Hk & Hfail & Hok & ->); [|lia].
    exists k. repeat split.
    + lia.
    + intros j Hj. destruct (Hfail j Hj) as [e He].
      unfold downloadAttempt in He. simpl in He.
      destruct (first j) as [|e']; [discriminate|]. now exists e'.
    + unfold downloadAttempt in Hok. simpl in Hok.
      destruct (first k) as [body|]; [now exists body|discriminate].
    + now apply countRequests_retryTrace.
Qed.

End StoreTwice.

(** C3, as the code has it. When the first of two calls of the media store
    for one (channel, post number) and URL returns metadata, the second call
    finds the stored file, issues no request, and returns the same metadata
    (path, file name, size, mime type, relative path), leaving the disk
    unchanged. The requests of the pair are those of the first call: none
    when a file was already stored for the key, otherwise one for each
    attempt up to the first that succeeds, at most [retries], and so exactly
    one when the first attempt succeeds. *)
Theorem store_twice_spec (imageDir : jsstring) (fs : FS) first second imageUrl channel postNumber
    retries delay imageData fs1 tr1 :
  downloadImage imageDir fs first imageUrl channel postNumber retries delay
  = (Return imageData, fs1, tr1) ->
  downloadImage imageDir fs1 second imageUrl channel postNumber retries delay
  = (Return imageData, fs1, [])
  /\ (countRequests tr1 <= retries)%nat
  /\ (dirEntries fs (postDirOf imageDir channel postNumber) <> [] ->
      countRequests tr1 = 0%nat)
  /\ (dirEntries fs (postDirOf imageDir channel postNumber) = [] ->
      exists k, (k < retries)%nat
                /\ requestsFailBefore first k
                /\ (exists buffer, first k = Response200 buffer)
                /\ countRequests tr1 = S k)
  /\ (dirEntries fs (postDirOf imageDir channel postNumber) = [] ->
      (exists buffer, first 0%nat = Response200 buffer) ->
      countRequests tr1 = 1%nat).
Proof.
  intros H.
  destruct (downloadImage_requests imageDir _ _ _ _ _ _ _ _ _ _ H) as [Hstored Hfresh].
  split; [exact (downloadImage_again imageDir fs first second _ _ _ _ _ _ _ _ H)|].
  assert (Hcount : dirEntries fs (postDirOf imageDir channel postNumber) = [] ->
                   exists k, (k < retries)%nat /\ requestsFailBefore first k
                             /\ (exists buffer, first k = Response200 buffer)
                             /\ countRequests tr1 = S k).
  { intros Hdir. destruct (Hfresh Hdir) as (k & Hk & Hfail & Hok & _ & Hc).
    exists k. auto. }
  split; [|split; [|split]].
  - destruct (dirEntries fs (postDirOf imageDir channel postNumber)) eqn:Hdir.
    + destruct (Hcount eq_refl) as (k & Hk & _ & _ & Hc). rewrite Hc. exact Hk.
    + rewrite Hstored by discriminate. unfold countRequests. simpl. lia.
  - intros Hne. now rewrite (Hstored Hne).
  - exact Hcount.
  - intros Hdir [buffer Hfirst].
    destruct (Hcount Hdir) as (k & _ & Hfail & _ & ->).
    destruct k as [|k]; [reflexivity|].
    destruct (Hfail 0%nat ltac:(lia)) as [e He]. congruence.
Qed.

Lemma store_twice_spec_witness :
  exists imageData fs1,
    downloadImage (js "/srv/images") ∅ goodServer (js "https://cdn/p.png") (js "news") 7 3 2000
    = (Return imageData, fs1, [EvGet (js "https://cdn/p.png")])
    /\ downloadImage (js "/srv/images") fs1 deadServer (js "https://cdn/p.png") (js "news") 7 3 2000
       = (Return imageData, fs1, [])
    /\ filename imageData = js "image.png"
    /\ size imageData = 8
    /\ mimeType imageData = js "image/png"
    /\ relativePath imageData = js "images/news/7/image.png".
Proof.
  destruct (downloadImage (js "/srv/images") ∅ goodServer (js "https://cdn/p.png")
              (js "news") 7 3 2000) as [[r fs1] tr] eqn:E.
  assert (Hr : r = Return {| path := js "/srv/images/news/7/image.png";
                             filename := js "image.png";
                             size := 8;
                             mimeType := js "image/png";
                             relativePath := js "images/news/7/image.png" |}).
  { apply (f_equal (fun x => fst (fst x))) in E. simpl in E. rewrite <- E. reflexivity. }
  assert (Htr : tr = [EvGet (js "https://cdn/p.png")]).
  { apply (f_equal snd) in E. simpl in E. rewrite <- E. reflexivity. }
  subst r tr. eexists _, fs1. split; [reflexivity|].
  split; [|repeat split].
  apply (store_twice_spec (js "/srv/images") ∅ goodServer deadServer
           (js "https://cdn/p.png") (js "news") 7 3%nat 2000 _ fs1 _ E).
Defined.

(** C3 as stated fails: with an empty store and a server that fails the first
    request and answers the second, two calls of the media store issue two
    requests, not one. *)
Lemma store_twice_counterexample :
  let '((r1, tr1), (r2, tr2)) :=
    storeTwice (js "/srv/images") ∅ flakyServer flakyServer
      (js "https://cdn/p.png") (js "news") 7 in
  tr1 = [EvGet (js "https://cdn/p.png"); EvWait 2000; EvGet (js "https://cdn/p.png")]
  /\ tr2 = []
  /\ countRequests (tr1 ++ tr2) = 2%nat
  /\ countRequests (tr1 ++ tr2) <> 1%nat.
Proof. vm_compute. repeat split. discriminate. Qed.

(** ** The stable sort by post number *)

Section SortFacts.

Lemma insertByPostNumber_perm x l : Permutation (insertByPostNumber x l) (x :: l).
Proof.
  induction l as [|y r IH]; [reflexivity|]. simpl.
  destruct (snd x <? snd y).
  - rewrite IH. apply perm_swap.
  - reflexivity.
Qed.

Lemma sortItems_perm l : Permutation (sortItems l) l.
Proof.
  induction l as [|x l IH]; [reflexivity|]. simpl.
  rewrite insertByPostNumber_perm. now apply perm_skip.
Qed.

Lemma sortItems_length l : length (sortItems l) = length l.
Proof. apply Permutation_length, sortItems_perm. Qed.

Lemma insertByPostNumber_sorted x l :
  StronglySorted postNumberDescending l ->
  StronglySorted postNumberDescending (insertByPostNumber x l).
Proof.
  induction 1 as [|y r Hr IH Hy]; simpl.
  - constructor; constructor.
  - destruct (Z.ltb_spec (snd x) (snd y)) as [Hlt|Hge].
    + constructor; [assumption|].
      apply (Permutation_Forall (Permutation_sym (insertByPostNumber_perm x r))).
      constructor; [unfold postNumberDescending; lia|assumption].
    + constructor; [now constructor|].
      constructor; [exact Hge|].
      eapply List.Forall_impl; [|exact Hy].
      unfold postNumberDescending. intros z Hz. lia.
Qed.

Lemma sortItems_sorted l : StronglySorted postNumberDescending (sortItems l).
Proof.
  induction l as [|x l IH]; simpl; [constructor|].
  now apply insertByPostNumber_sorted.
Qed.

(** Inserting goes past entries of strictly larger post number only, so among
    the entries of one post number the inserted one comes first. *)
Lemma insertByPostNumber_filter k x l :
  List.filter (fun e => snd e =? k) (insertByPostNumber x l)
  = List.filter (fun e => snd e =? k) (x :: l).
Proof.
  induction l as [|y r IH]; [reflexivity|].
  cbn [insertByPostNumber]. destruct (Z.ltb_spec (snd x) (snd y)) as [Hlt|Hge]; [|reflexivity].
  cbn [List.filter] in *. rewrite IH.
  destruct (Z.eqb_spec (snd x) k) as [Hx|Hx]; [|reflexivity].
  destruct (Z.eqb_spec (snd y) k) as [Hy|Hy]; [lia|reflexivity].
Qed.

(** Stability: the entries of each post number keep their order. *)
Lemma sortItems_stable k l :
  List.filter (fun e => snd e =? k) (sortItems l) = List.filter (fun e => snd e =? k) l.
Proof.
  induction l as [|x l IH]; [reflexivity|].
  cbn [sortItems foldr]. fold (sortItems l).
  rewrite insertByPostNumber_filter. cbn [List.filter]. now rewrite IH.
Qed.

(** A list in descending order is determined by its entries of each post
    number: whatever stable sorting algorithm the engine runs, its result on
    [l] is [sortItems l]. *)
Lemma descending_unique (l1 l2 : list (Item * Z)) :
  StronglySorted postNumberDescending l1 ->
  StronglySorted postNumberDescending l2 ->
  (forall k, List.filter (fun e => snd e =? k) l1 = List.filter (fun e => snd e =? k) l2) ->
  l1 = l2.
Proof.
  intros H1. revert l2. induction H1 as [|x r1 Hr1 IH Hx]; intros l2 H2 Hf.
  - destruct l2 as [|y r2]; [reflexivity|].
    specialize (Hf (snd y)). simpl in Hf. rewrite Z.eqb_refl in Hf. discriminate.
  - destruct H2 as [|y r2 Hr2 Hy].
    + specialize (Hf (snd x)). simpl in Hf. rewrite Z.eqb_refl in Hf. discriminate.
    + assert (Hnone : forall (z : Item * Z) r k,
                 Forall (postNumberDescending z) r -> snd z < k ->
                 List.filter (fun e => snd e =? k) (z :: r) = []).
      { intros z r k Hz Hlt. cbn [List.filter].
        destruct (Z.eqb_spec (snd z) k); [lia|].
        induction Hz as [|w r Hw Hr IHr]; [reflexivity|].
        cbn [List.filter]. unfold postNumberDescending in Hw.
        destruct (Z.eqb_spec (snd w) k); [lia|exact IHr]. }
      assert (Hkey : snd x = snd y).
      { destruct (Z.lt_trichotomy (snd x) (snd y)) as [Hlt|[Heq|Hgt]]; [|exact Heq|].
        - specialize (Hf (snd y)). rewrite (Hnone x r1 (snd y) Hx Hlt) in Hf.
          simpl in Hf. rewrite Z.eqb_refl in Hf. discriminate.
        - specialize (Hf (snd x)). rewrite (Hnone y r2 (snd x) Hy) in Hf by lia.
          simpl in Hf. rewrite Z.eqb_refl in Hf. discriminate. }
      assert (Hhead : x = y).
      { specialize (Hf (snd x)). cbn [List.filter] in Hf.
        rewrite <- Hkey, Z.eqb_refl in Hf. now injection Hf. }
      subst y. f_equal. apply IH; [assumption|].
      intros k. specialize (Hf k). cbn [List.filter] in Hf.
      destruct (snd x =? k); [now injection Hf|exact Hf].
Qed.

Lemma sortItems_any_stable_sort (l sorted : list (Item * Z)) :
  StronglySorted postNumberDescending sorted ->
  (forall k, List.filter (fun e => snd e =? k) sorted = List.filter (fun e => snd e =? k) l) ->
  sorted = sortItems l.
Proof.
  intros Hs Hf. apply descending_unique; [assumption|apply sortItems_sorted|].
  intros k. now rewrite Hf, sortItems_stable.
Qed.



End SortFacts.

(** ** One item *)

Section ItemFacts.
Variable env : Env.
Variables telegram_channel serverUrl : jsstring.

Lemma sanitizeXmlText_ok_iff v :
  (exists t, Sanitize.sanitizeXmlText v = Ok t) <-> textOk v = true.
Proof.
  destruct v as [| |x|]; simpl; split; intros H; try reflexivity; try discriminate.
  - now exists [].
  - now exists [].
  - rewrite sanitizeXmlText_string. eauto.
  - destruct H as [t H]. discriminate.
Qed.

Lemma sanitizeXmlText_textOk v t : Sanitize.sanitizeXmlText v = Ok t -> textOk v = true.
Proof. intros H. apply sanitizeXmlText_ok_iff. eauto. Qed.

Ltac item_cases H :=
  unfold processItem, rbind in H;
  repeat match type of H with
         | context [match ?x with _ => _ end] =>
             match x with
             | raw_image _ => destruct x as [[?u|]|] eqn:?Eimage
             | raw_link _ => destruct x as [?link|] eqn:?Elink
             | raw_description _ => destruct x as [?d|] eqn:?Edescription
             | raw_title _ => destruct x as [?t|] eqn:?Etitle
             | Sanitize.sanitizeXmlText _ => destruct x as [?text|] eqn:?Etext
             end; try discriminate H
         end.

(** An item is processed exactly when it is well formed; neither its date
    nor the outcome of its download decides that. *)
Lemma processItem_ok index item :
  wellFormedItem item = true ->
  exists e, processItem env telegram_channel serverUrl index item = Ok e.
Proof.
  unfold wellFormedItem, processItem, rbind. intros H.
  apply andb_true_iff in H as [H Htext]. apply andb_true_iff in H as [Himage Hlink].
  destruct (raw_image item) as [[u|]|]; try discriminate Himage;
    destruct (raw_link item) as [link|]; try discriminate Hlink;
    destruct (raw_description item) as [d|].
  all: try (apply sanitizeXmlText_ok_iff in Htext as [t ->]; eauto).
  all: destruct (raw_title item) as [t|]; [|discriminate].
  all: apply sanitizeXmlText_ok_iff in Htext as [t' ->]; eauto.
Qed.

Lemma processItem_inv index item e k :
  processItem env telegram_channel serverUrl index item = Ok (e, k) ->
  wellFormedItem item = true
  /\ raw_link item = Some (item_link e)
  /\ item_guid e = item_link e
  /\ k = orderingKey e.
Proof.
  intros H. unfold wellFormedItem, orderingKey. item_cases H.
  all: injection H as <- <-; simpl.
  all: repeat split.
  all: try match goal with E : Sanitize.sanitizeXmlText _ = Ok _ |- _ =>
             now rewrite (sanitizeXmlText_textOk _ _ E) end.
Qed.

(** The [catch] of the download (lines 244-254). *)
Lemma processItem_fallback index item e k u err fs tr :
  processItem env telegram_channel serverUrl index item = Ok (e, k) ->
  raw_image item = Some (Some u) -> u <> [] ->
  downloadImage (imageDir env) (disk env) (https_get env index) u telegram_channel
    (extractPostNumber (item_link e)) 3 2000 = (Throw err, fs, tr) ->
  item_enclosure e = [fallbackEnclosure u].
Proof.
  intros H Himage Hu Hdl. item_cases H.
  all: try discriminate Himage.
  all: injection Himage as ->.
  all: destruct u as [|c u]; [congruence|].
  all: injection H as <- <-; simpl in *.
  all: now rewrite Hdl.
Qed.

(** The date of an entry (line 226). *)
Lemma processItem_pubDate index item e k :
  processItem env telegram_channel serverUrl index item = Ok (e, k) ->
  item_pubDate e
  = match raw_pubDate item with
    | Some d => if falsy d then toUTCString env (Some (buildTime env))
                else toUTCString env (newDate env d)
    | None => toUTCString env (Some (buildTime env))
    end.
Proof.
  intros H. item_cases H.
  all: now injection H as <- <-.
Qed.

Lemma processItemsFrom_ok index items :
  forallb wellFormedItem items = true ->
  exists keyed, processItemsFrom env telegram_channel serverUrl index items = Ok keyed.
Proof.
  revert index. induction items as [|item rest IH]; intros index H; simpl.
  - eauto.
  - simpl in H. apply andb_true_iff in H as [Hitem Hrest].
    destruct (processItem_ok index item Hitem) as [e ->].
    destruct (IH (S index) Hrest) as [keyed ->]. simpl. eauto.
Qed.

Lemma processItemsFrom_inv index items keyed :
  processItemsFrom env telegram_channel serverUrl index items = Ok keyed ->
  Forall2 (fun item e => raw_link item = Some (item_link (fst e))) items keyed
  /\ Forall (fun e => snd e = orderingKey (fst e)) keyed
  /\ forallb wellFormedItem items = true.
Proof.
  revert index keyed. induction items as [|item rest IH]; intros index keyed H; simpl in H.
  - injection H as <-. repeat split; constructor.
  - unfold rbind in H.
    destruct (processItem env telegram_channel serverUrl index item) as [[e k]|] eqn:Eitem;
      [|discriminate].
    destruct (processItemsFrom env telegram_channel serverUrl (S index) rest) as [es|] eqn:Erest;
      [|discriminate].
    injection H as <-.
    destruct (processItem_inv _ _ _ _ Eitem) as (Hwf & Hlink & _ & Hk).
    destruct (IH _ _ Erest) as (Hall & Hkeys & Hwfs).
    repeat split; [now constructor|now constructor|].
    simpl. now rewrite Hwf, Hwfs.
Qed.

Lemma processItemsFrom_lookup index items keyed i item :
  processItemsFrom env telegram_channel serverUrl index items = Ok keyed ->
  items !! i = Some item ->
  exists e, keyed !! i = Some e
            /\ processItem env telegram_channel serverUrl (index + i) item = Ok e.
Proof.
  revert index keyed i. induction items as [|x rest IH]; intros index keyed i H Hi.
  - destruct i; discriminate.
  - simpl in H. unfold rbind in H.
    destruct (processItem env telegram_channel serverUrl index x) as [e|] eqn:Eitem;
      [|discriminate].
    destruct (processItemsFrom env telegram_channel serverUrl (S index) rest) as [es|] eqn:Erest;
      [|discriminate].
    injection H as <-. destruct i as [|i].
    + injection Hi as <-. exists e. rewrite Nat.add_0_r. auto.
    + simpl in Hi. destruct (IH _ _ _ Erest Hi) as (e' & He' & Hp).
      exists e'. split; [exact He'|]. now rewrite <- Nat.add_succ_comm.
Qed.

(** ** The whole document *)

Lemma normalizeChannel_inv channel out :
  normalizeChannel env telegram_channel serverUrl channel = Ok out ->
  exists title rawItems keyed,
    channelTitle channel = Ok title
    /\ raw_channel_item channel = Some rawItems
    /\ processItemsFrom env telegram_channel serverUrl 0 rawItems = Ok keyed
    /\ out = assembleChannel env telegram_channel channel title keyed.
Proof.
  unfold normalizeChannel, rbind, channelItems. intros H.
  destruct (channelTitle channel) as [title|]; [|discriminate].
  destruct (raw_channel_item channel) as [rawItems|]; [|discriminate].
  destruct (processItemsFrom env telegram_channel serverUrl 0 rawItems) as [keyed|] eqn:Eitems;
    [|discriminate].
  injection H as <-. now exists title, rawItems, keyed.
Qed.

Lemma channelTitle_ok channel :
  match raw_channel_title channel with Some t => textOk t | None => false end = true ->
  exists title, channelTitle channel = Ok title.
Proof.
  unfold channelTitle, rbind. destruct (raw_channel_title channel) as [t|]; [|discriminate].
  intros H. apply sanitizeXmlText_ok_iff in H as [x ->]. eauto.
Qed.

Lemma normalizeChannel_ok channel :
  wellFormedChannel channel = true ->
  exists out, normalizeChannel env telegram_channel serverUrl channel = Ok out.
Proof.
  unfold wellFormedChannel. intros H. apply andb_true_iff in H as [Ht Hi].
  destruct (channelTitle_ok channel Ht) as [title Htitle].
  unfold normalizeChannel, rbind, channelItems. rewrite Htitle.
  destruct (raw_channel_item channel) as [rawItems|]; [|discriminate].
  destruct (processItemsFrom_ok 0 rawItems Hi) as [keyed ->]. eauto.
Qed.

End ItemFacts.



(** C6. A post that carries a media URL whose download fails at all three
    attempts does not make the document fail: a document of the expected
    shape is normalized all the same; and in the output no post is dropped and
    that post is present, its media reference being the original remote URL
    with the type image/jpeg and the length 0. *)
Theorem failed_download_fallback (env : Env) (telegram_channel serverUrl : jsstring)
    (raw : RawChannel) (rawItems : list RawItem) (i : nat) (item : RawItem)
    (imageUrl link : jsstring) :
  raw_channel_item raw = Some rawItems ->
  rawItems !! i = Some item ->
  raw_image item = Some (Some imageUrl) -> imageUrl <> [] ->
  raw_link item = Some link ->
  dirEntries (disk env) (postDirOf (imageDir env) telegram_channel (extractPostNumber link)) = [] ->
  requestsFailBefore (https_get env i) 3 ->
  (wellFormedChannel raw = true ->
   exists out, normalizeChannel env telegram_channel serverUrl raw = Ok out)
  /\ (forall out,
         normalizeChannel env telegram_channel serverUrl raw = Ok out ->
         length (channel_item out) = length rawItems
         /\ exists entry,
              In entry (channel_item out)
              /\ item_link entry = link
              /\ item_enclosure entry
                 = [ {| enc_url := imageUrl; enc_type := js "image/jpeg";
                        enc_length := js "0" |} ]).
Proof.
  intros Hitems Hi Himage Hurl Hlink Hdir Hfail.
  split; [apply normalizeChannel_ok|].
  intros out Hout.
  destruct (normalizeChannel_inv _ _ _ _ _ Hout) as (title & rawItems' & keyed & _ & Hitems' & Hp & ->).
  rewrite Hitems in Hitems'. injection Hitems' as <-.
  destruct (processItemsFrom_lookup _ _ _ _ _ _ _ _ Hp Hi) as ([entry k] & Hk & Hentry).
  simpl in Hentry.
  destruct (processItem_inv _ _ _ _ _ _ _ Hentry) as (_ & Hlink' & _ & _).
  rewrite Hlink in Hlink'. injection Hlink' as Hlink'.
  destruct (Hfail 2%nat ltac:(lia)) as [last Hlast].
  cbn [channel_item assembleChannel]. split.
  - rewrite length_map, sortItems_length.
    destruct (processItemsFrom_inv _ _ _ _ _ _ Hp) as (Hall & _ & _).
    symmetry. exact (Forall2_length _ _ _ Hall).
  - exists entry. split; [|split].
    + apply (Permutation_in _ (Permutation_sym (Permutation_map fst (sortItems_perm keyed)))).
      apply (in_map fst keyed (entry, k)).
      apply list_elem_of_In, list_elem_of_lookup. eauto.
    + now symmetry.
    + eapply (processItem_fallback env telegram_channel serverUrl i item entry k imageUrl last);
        [exact Hentry|assumption|assumption|].
      rewrite <- Hlink'. apply downloadImage_exhausted; [assumption|lia|assumption|exact Hlast].
Qed.

Lemma failed_download_fallback_witness :
  exists out entry,
    normalizeChannel sampleEnv (js "news") (js "http://serverIP") sampleChannel = Ok out
    /\ length (channel_item out) = 4%nat
    /\ In entry (channel_item out)
    /\ item_link entry = js "https://t.me/news/9"
    /\ item_enclosure entry
       = [ {| enc_url := js "https://cdn/b.png"; enc_type := js "image/jpeg";
              enc_length := js "0" |} ].
Proof.
  assert (Hfail : requestsFailBefore (https_get sampleEnv 1) 3).
  { intros j _. eexists. reflexivity. }
  assert (Hurl : js "https://cdn/b.png" <> []) by discriminate.
  destruct (failed_download_fallback sampleEnv (js "news") (js "http://serverIP") sampleChannel
              sampleItems 1%nat _ (js "https://cdn/b.png") (js "https://t.me/news/9")
              eq_refl eq_refl eq_refl Hurl eq_refl eq_refl Hfail) as [Hok Hpresent].
  destruct (Hok eq_refl) as [out Hout].
  destruct (Hpresent out Hout) as (Hlen & entry & Hin & Hlink & Henc).
  exists out, entry. auto.
Defined.

(** ** Absent text *)



(** ** Publish dates *)

(** The helper [parseDate] falls back to the clock on a date that does not
    parse; [processRssFeed] does not call it. *)
Lemma parseDate_fallback dateParse now dateStr :
  dateParse dateStr = None -> parseDate dateParse now dateStr = now.
Proof. unfold parseDate. now intros ->. Qed.

(** An absent or empty date takes the build timestamp. *)
Lemma processItem_absent_date env telegram_channel serverUrl index item e k :
  processItem env telegram_channel serverUrl index item = Ok (e, k) ->
  match raw_pubDate item with Some d => falsy d | None => true end = true ->
  item_pubDate e = toUTCString env (Some (buildTime env)).
Proof.
  intros H Hd. rewrite (processItem_pubDate _ _ _ _ _ _ _ H).
  destruct (raw_pubDate item) as [d|]; [now rewrite Hd|reflexivity].
Qed.

(** The date of an item has no part in whether the item is processed. *)
Lemma processItem_date_never_fails env telegram_channel serverUrl index item d :
  wellFormedItem item = true ->
  exists e, processItem env telegram_channel serverUrl index
              {| raw_image := raw_image item; raw_pubDate := d; raw_link := raw_link item;
                 raw_description := raw_description item; raw_title := raw_title item |}
            = Ok e.
Proof. intros H. now apply processItem_ok. Qed.

(** C1, what the code does on the failing input. A post whose publish date
    is a non-empty string that does not parse keeps the text that
    [toUTCString] gives for an invalid date, [Invalid Date], as its pubDate;
    the build timestamp is not substituted. The post is processed all the
    same. *)
Theorem unparseable_date_not_substituted (env : Env) (telegram_channel serverUrl : jsstring)
    (index : nat) (item : RawItem) (dateStr : jsstring) :
  wellFormedItem item = true ->
  raw_pubDate item = Some (JsString dateStr) ->
  dateStr <> [] ->
  dateParse env dateStr = None ->
  exists e k,
    processItem env telegram_channel serverUrl index item = Ok (e, k)
    /\ item_pubDate e = js "Invalid Date".
Proof.
  intros Hwf Hdate Hne Hparse.
  destruct (processItem_ok env telegram_channel serverUrl index item Hwf) as [[e k] He].
  exists e, k. split; [exact He|].
  rewrite (processItem_pubDate _ _ _ _ _ _ _ He), Hdate.
  destruct dateStr as [|c r]; [congruence|]. simpl. now rewrite Hparse.
Qed.

Lemma unparseable_date_not_substituted_witness :
  exists out,
    normalizeChannel sampleEnv (js "news") (js "http://serverIP") sampleChannel = Ok out
    /\ channel_pubDate out = js "Fri, 02 Jan 1970 00:00:00 GMT"
    /\ List.map item_pubDate (channel_item out)
       = [js "Invalid Date"; js "Thu, 01 Jan 1970 00:00:00 GMT";
          js "Fri, 02 Jan 1970 00:00:00 GMT"; js "Fri, 02 Jan 1970 00:00:00 GMT"]
    /\ exists e k,
         processItem sampleEnv (js "news") (js "http://serverIP") 1
           {| raw_image := Some (Some (js "https://cdn/b.png"));
              raw_pubDate := Some (JsString (js "yesterday"));
              raw_link := Some (js "https://t.me/news/9");
              raw_description := None;
              raw_title := Some (JsString (js "Tom & Jerry")) |} = Ok (e, k)
         /\ item_pubDate e = js "Invalid Date".
Proof.
  eexists. split; [vm_compute; reflexivity|].
  split; [reflexivity|]. split; [reflexivity|].
  apply (unparseable_date_not_substituted sampleEnv (js "news") (js "http://serverIP") 1%nat
           _ (js "yesterday")); [reflexivity|reflexivity|discriminate|reflexivity].
Defined.

(** ** The cache *)

Section CacheFacts.
Variable env : Env.
Variables telegram_channel serverUrl : jsstring.

Lemma afterOthers_soleWriter (cache : Cache) n :
  soleWriter env telegram_channel ->
  afterOthers env n cache !! telegram_channel = cache !! telegram_channel.
Proof.
  intros Hsole. induction n as [|n IH]; [reflexivity|]. simpl. now rewrite Hsole.
Qed.

(** C5. A refresh writes the cache in one step only. Whatever the other
    tasks do meanwhile, at each of its suspensions the run has left the cache
    as it found it; a run that fails at the fetch, the parse, the
    normalization or the serialization ends without having written; and a
    run that succeeds replaces the entry of its channel, after the third
    suspension, by the serialization of the complete normalized document with
    its timestamp. So when no other task writes that entry, every reader
    meanwhile and every failed run see the entry exactly as it was. *)
Theorem refresh_atomic (cache : Cache) :
  (exists j,
      (1 <= j <= 3)%nat
      /\ observed (processRssFeed env telegram_channel serverUrl cache)
         = List.map (fun i => afterOthers env i cache) (seq 0 j)
      /\ match outcome (processRssFeed env telegram_channel serverUrl cache) with
         | Err _ =>
             cacheAfter (processRssFeed env telegram_channel serverUrl cache)
             = afterOthers env j cache
         | Ok newXml =>
             cacheAfter (processRssFeed env telegram_channel serverUrl cache)
             = <[telegram_channel := {| xml := newXml; lastUpdate := cacheTime env |}]>
                 (afterOthers env 3 cache)
             /\ exists fetched raw out,
                  awaited (fst (safeTelegramRss (telegram_rss env) telegram_channel 3 2000))
                  = Ok fetched
                  /\ parseStringPromise env (preSanitize fetched) = Ok (Some raw)
                  /\ normalizeChannel env telegram_channel serverUrl raw = Ok out
                  /\ buildObject env out = Ok newXml
         end)
  /\ (soleWriter env telegram_channel ->
      Forall (fun seen : Cache => seen !! telegram_channel = cache !! telegram_channel)
        (observed (processRssFeed env telegram_channel serverUrl cache))
      /\ match outcome (processRssFeed env telegram_channel serverUrl cache) with
         | Err _ =>
             cacheAfter (processRssFeed env telegram_channel serverUrl cache)
               !! telegram_channel
             = cache !! telegram_channel
         | Ok newXml =>
             cacheAfter (processRssFeed env telegram_channel serverUrl cache)
               !! telegram_channel
             = Some {| xml := newXml; lastUpdate := cacheTime env |}
         end).
Proof.
  assert (Hgen : exists j,
      (1 <= j <= 3)%nat
      /\ observed (processRssFeed env telegram_channel serverUrl cache)
         = List.map (fun i => afterOthers env i cache) (seq 0 j)
      /\ match outcome (processRssFeed env telegram_channel serverUrl cache) with
         | Err _ =>
             cacheAfter (processRssFeed env telegram_channel serverUrl cache)
             = afterOthers env j cache
         | Ok newXml =>
             cacheAfter (processRssFeed env telegram_channel serverUrl cache)
             = <[telegram_channel := {| xml := newXml; lastUpdate := cacheTime env |}]>
                 (afterOthers env 3 cache)
             /\ exists fetched raw out,
                  awaited (fst (safeTelegramRss (telegram_rss env) telegram_channel 3 2000))
                  = Ok fetched
                  /\ parseStringPromise env (preSanitize fetched) = Ok (Some raw)
                  /\ normalizeChannel env telegram_channel serverUrl raw = Ok out
                  /\ buildObject env out = Ok newXml
         end).
  { unfold processRssFeed, bind, await, lift, cacheSet, ret.
    cbn [outcome cacheAfter observed].
    destruct (awaited (fst (safeTelegramRss (telegram_rss env) telegram_channel 3 2000)))
      as [fetched|] eqn:Efetch; cbn [outcome cacheAfter observed];
      [|exists 1%nat; repeat split; lia].
    destruct (parseStringPromise env (preSanitize fetched)) as [[raw|]|] eqn:Eparse;
      cbn [outcome cacheAfter observed app];
      [|exists 2%nat; repeat split; lia..].
    destruct (channelTitle raw) as [title|] eqn:Etitle; cbn [outcome cacheAfter observed app];
      [|exists 2%nat; repeat split; lia].
    destruct (channelItems raw) as [rawItems|] eqn:Eitems; cbn [outcome cacheAfter observed app];
      [|exists 2%nat; repeat split; lia].
    destruct (processItemsFrom env telegram_channel serverUrl 0 rawItems) as [items|] eqn:Eproc;
      cbn [outcome cacheAfter observed app];
      [|exists 3%nat; repeat split; lia].
    destruct (buildObject env (assembleChannel env telegram_channel raw title items))
      as [newXml|] eqn:Ebuild; cbn [outcome cacheAfter observed app];
      [|exists 3%nat; repeat split; lia].
    exists 3%nat. split; [lia|]. split; [reflexivity|]. split; [reflexivity|].
    exists fetched, raw, (assembleChannel env telegram_channel raw title items).
    repeat split; try assumption.
    unfold normalizeChannel, rbind. now rewrite Etitle, Eitems, Eproc. }
  split; [exact Hgen|].
  intros Hsole. destruct Hgen as (j & _ & Hobs & Hout). split.
  - rewrite Hobs. apply List.Forall_map, List.Forall_forall.
    intros i _. now apply afterOthers_soleWriter.
  - destruct (outcome (processRssFeed env telegram_channel serverUrl cache)).
    + destruct Hout as [-> _]. apply lookup_insert_eq.
    + rewrite Hout. now apply afterOthers_soleWriter.
Qed.

End CacheFacts.

Lemma refresh_atomic_witness :
  soleWriter busyEnv (js "news")
  /\ (let old := {| xml := js "<old/>"; lastUpdate := 5 |} in
      let run := processRssFeed busyEnv (js "news") (js "http://serverIP")
                   {[ js "news" := old ]} in
      Forall (fun seen : Cache => seen !! js "news" = Some old) (observed run)
      /\ length (observed run) = 3%nat
      /\ xml <$> (cacheAfter run !! js "news")
         = Some (js "https://t.me/news/9https://t.me/news/5https://t.me/s/news/5https://t.me/news")
      /\ xml <$> (cacheAfter run !! js "other") = Some (js "<rss/>")).
Proof.
  assert (Hsole : soleWriter busyEnv (js "news")).
  { intros k c. destruct k as [|[|k]]; try reflexivity.
    simpl. now rewrite lookup_insert_ne. }
  split; [exact Hsole|]. intros old run.
  destruct (refresh_atomic busyEnv (js "news") (js "http://serverIP") {[ js "news" := old ]})
    as [_ Hkey].
  destruct (Hkey Hsole) as [Hseen _].
  split; [|repeat split].
  change (processRssFeed busyEnv (js "news") (js "http://serverIP") {[ js "news" := old ]})
    with run in Hseen.
  eapply List.Forall_impl; [|exact Hseen].
  intros seen ->. apply lookup_singleton_eq.
Defined.


Example refresh_success :
  let run := processRssFeed sampleEnv (js "news") (js "http://serverIP") ∅ in
  outcome run
  = Ok (js "https://t.me/news/9https://t.me/news/5https://t.me/s/news/5https://t.me/news")
  /\ observed run = [∅; ∅; ∅]
  /\ xml <$> (cacheAfter run !! js "news")
     = Some (js "https://t.me/news/9https://t.me/news/5https://t.me/s/news/5https://t.me/news").
Proof. vm_compute. repeat split. Qed.

Example refresh_failure :
  let old := {| xml := js "<old/>"; lastUpdate := 5 |} in
  let run := processRssFeed deadEnv (js "news") (js "http://serverIP") {[ js "news" := old ]} in
  outcome run = Err (FetchError 2)
  /\ cacheAfter run = {[ js "news" := old ]}.
Proof. split; reflexivity. Qed.

(** * Further properties of the program *)

(** ** What the sanitizer returns *)

Section SanitizeOutput.
Import Sanitize.

Lemma trimEnd_last s :
  match last (trimEnd s) with None => True | Some c => isWhiteSpace c = false end.
Proof.
  induction s as [|c r IH]; [exact I|].
  change (trimEnd (c :: r))
    with (match trimEnd r with [] => if isWhiteSpace c then [] else [c] | t => c :: t end).
  destruct (trimEnd r) as [|d t].
  - destruct (isWhiteSpace c) eqn:Ec; [exact I|exact Ec].
  - exact IH.
Qed.

Lemma sanitizeString_safe s : xmlSafe (sanitizeString s) = true.
Proof.
  unfold xmlSafe, rawFree. rewrite sanitizeString_ampOk.
  assert (Hm : forallb (fun c => negb (isMarkup c)) (sanitizeString s) = true)
    by (unfold sanitizeString; apply forallb_trim, escapeAndStrip_noMarkup).
  assert (Hv : forallb validXmlChar (sanitizeString s) = true)
    by (unfold sanitizeString, escapeAndStrip; apply forallb_trim, stripInvalid_valid).
  rewrite Hm, Hv. cbn [andb].
  unfold sanitizeString, trim.
  pose proof (trimEnd_head (trimStart (escapeAndStrip s)) (trimStart_head _)) as Hh.
  pose proof (trimEnd_last (trimStart (escapeAndStrip s))) as Hl.
  destruct (trimEnd (trimStart (escapeAndStrip s))) as [|c t] eqn:E; [reflexivity|].
  rewrite Hh. cbn [negb andb].
  destruct (last (c :: t)); [now rewrite Hl|reflexivity].
Qed.

Lemma sanitizeXmlText_safe (v : JsValue) (s : jsstring) :
  sanitizeXmlText v = Ok s -> xmlSafe s = true.
Proof.
  unfold sanitizeXmlText. destruct (falsy v).
  - now intros [= <-].
  - destruct v; try discriminate. intros [= <-]. apply sanitizeString_safe.
Qed.

(** X1. Whatever the sanitizer returns is safe to place in XML text: it holds
    no [<], [>], double or single quote, every [&] in it begins one of the
    five entities, every character is in the XML ranges, and it neither
    starts nor ends with white space. *)
Theorem sanitize_output_safe (v : JsValue) (s : jsstring) :
  sanitizeXmlText v = Ok s -> xmlSafe s = true.
Proof.
  unfold sanitizeXmlText. destruct (falsy v).
  - now intros [= <-].
  - destruct v; try discriminate. intros [= <-]. apply sanitizeString_safe.
Qed.

Lemma sanitize_output_safe_witness :
  sanitizeXmlText (JsString (js "  5 > 3 & 'x' <b> ")) = Ok (js "5 &gt; 3 &amp; &apos;x&apos; &lt;b&gt;")
  /\ xmlSafe (js "5 &gt; 3 &amp; &apos;x&apos; &lt;b&gt;") = true.
Proof.
  split; [reflexivity|].
  apply (sanitize_output_safe (JsString (js "  5 > 3 & 'x' <b> "))). reflexivity.
Defined.

End SanitizeOutput.

(** ** The pre-sanitising of the fetched XML *)

Section PreSanitizeFacts.

Lemma isNameChar_not_amp c : isNameChar c = true -> (c =? Sanitize.amp) = false.
Proof.
  unfold isNameChar, Sanitize.amp. intros H. apply Z.eqb_neq. intros ->. discriminate.
Qed.

Lemma skipNameChars_preSanitize r t :
  skipNameChars r = 59 :: t ->
  exists t', skipNameChars (preSanitize r) = 59 :: t'.
Proof.
  induction r as [|x r IH]; [discriminate|]. cbn [skipNameChars].
  destruct (isNameChar x) eqn:Ex.
  - intros H. destruct (IH H) as [t' Ht'].
    cbn [preSanitize]. rewrite (isNameChar_not_amp x Ex). cbn [andb skipNameChars].
    rewrite Ex. eauto.
  - intros [= -> ->]. cbn [preSanitize andb skipNameChars].
    change (59 =? Sanitize.amp) with false. cbn [andb skipNameChars].
    change (isNameChar 59) with false. cbn. eauto.
Qed.

Lemma followedByReference_preSanitize r :
  followedByReference r = true -> followedByReference (preSanitize r) = true.
Proof.
  destruct r as [|c r]; [discriminate|]. cbn [followedByReference].
  intros H. apply andb_true_iff in H as [Hc Hs].
  cbn [preSanitize]. rewrite (isNameChar_not_amp c Hc). cbn [andb followedByReference].
  rewrite Hc. cbn [andb].
  destruct (skipNameChars r) as [|d t] eqn:E; [discriminate|].
  apply Z.eqb_eq in Hs. subst d.
  destruct (skipNameChars_preSanitize r t E) as [t' ->]. reflexivity.
Qed.

Lemma refsOk_preSanitize s : refsOk (preSanitize s) = true.
Proof.
  induction s as [|c r IH]; [reflexivity|]. cbn [preSanitize].
  destruct (c =? Sanitize.amp) eqn:Ec; cbn [andb].
  - destruct (followedByReference r) eqn:Hf; cbn [negb].
    + cbn [refsOk]. now rewrite Ec, IH, (followedByReference_preSanitize r Hf).
    + change (refsOk (js "&amp;" ++ preSanitize r))
        with (true && (true && (true && (true && (true && refsOk (preSanitize r)))))).
      now rewrite IH.
  - cbn [refsOk]. now rewrite Ec, IH.
Qed.

Lemma preSanitize_id s : refsOk s = true -> preSanitize s = s.
Proof.
  induction s as [|c r IH]; [reflexivity|]. cbn [refsOk preSanitize]. intros H.
  apply andb_true_iff in H as [Hc Hr]. rewrite (IH Hr).
  destruct (c =? Sanitize.amp); [|reflexivity]. now rewrite Hc.
Qed.

(** X2. The replacement applied to the fetched XML before parsing leaves no
    bare ampersand: in its result every [&] begins a reference [&name;] with
    a name of letters, digits and [#]. It changes nothing in a text that is
    already so, in particular in one without [&], and applying it twice is
    applying it once. *)
Theorem preSanitize_spec :
  (forall s, refsOk (preSanitize s) = true)
  /\ (forall s, refsOk s = true -> preSanitize s = s)
  /\ (forall s, forallb (fun c => negb (c =? Sanitize.amp)) s = true -> preSanitize s = s)
  /\ (forall s, preSanitize (preSanitize s) = preSanitize s).
Proof.
  split; [exact refsOk_preSanitize|]. split; [exact preSanitize_id|]. split.
  - intros s H. apply preSanitize_id.
    induction s as [|c r IH]; [reflexivity|]. simpl in H.
    apply andb_true_iff in H as [Hc Hr]. apply negb_true_iff in Hc.
    cbn [refsOk]. now rewrite Hc, (IH Hr).
  - intros s. apply preSanitize_id, refsOk_preSanitize.
Qed.

Lemma preSanitize_spec_witness :
  preSanitize (js "<a>R&D &#38; &lt; &x y; &;</a>")
  = js "<a>R&amp;D &#38; &lt; &amp;x y; &amp;;</a>"
  /\ preSanitize (js "<a>R&amp;D &#38; &lt;</a>") = js "<a>R&amp;D &#38; &lt;</a>"
  /\ preSanitize (js "<rss/>") = js "<rss/>".
Proof.
  destruct preSanitize_spec as (_ & Hid & Hnone & _).
  split; [reflexivity|]. split.
  - apply (Hid (js "<a>R&amp;D &#38; &lt;</a>")). reflexivity.
  - apply (Hnone (js "<rss/>")). reflexivity.
Defined.

End PreSanitizeFacts.

(** ** Post numbers and the names of post directories *)

Section PostNumberNames.

Lemma decimalValue_nonneg digits :
  forallb isDigit digits = true -> 0 <= decimalValue digits.
Proof.
  induction digits as [|d r IH]; [reflexivity|]. simpl. intros H.
  apply andb_true_iff in H as [Hd Hr]. specialize (IH Hr).
  unfold isDigit in Hd. apply andb_true_iff in Hd as [Hlo Hhi].
  apply Z.leb_le in Hlo, Hhi.
  assert (0 <= 10 ^ Z.of_nat (length r)) by (apply Z.pow_nonneg; lia). nia.
Qed.

Lemma parseInt_pos_acc (d : Decimal.uint) (acc : positive) :
  fold_left (fun a c => 10 * a + (c - 48)) (js (NilEmpty.string_of_uint d)) (Z.pos acc)
  = Z.pos (Pos.of_uint_acc d acc).
Proof.
  revert acc. induction d; intros acc; [reflexivity|..];
    cbn [NilEmpty.string_of_uint Pos.of_uint_acc];
    match goal with
    | |- fold_left ?f (js (String.String ?c ?s)) ?a = _ =>
        change (fold_left f (js (String.String c s)) a)
          with (fold_left f (js s) (f a (Z.of_N (Ascii.N_of_ascii c))))
    end; rewrite <- IHd; f_equal; cbn; lia.
Qed.

Lemma parseInt_uint (d : Decimal.uint) :
  parseInt (js (NilEmpty.string_of_uint d)) = Z.of_N (Pos.of_uint d).
Proof.
  unfold parseInt. induction d; [reflexivity|..];
    cbn [NilEmpty.string_of_uint Pos.of_uint];
    match goal with
    | |- fold_left ?f (js (String.String ?c ?s)) ?a = _ =>
        change (fold_left f (js (String.String c s)) a)
          with (fold_left f (js s) (f a (Z.of_N (Ascii.N_of_ascii c))))
    end; [exact IHd|..]; cbn [Z.of_N]; rewrite <- parseInt_pos_acc; reflexivity.
Qed.

Lemma digits_uint (d : Decimal.uint) :
  forallb isDigit (js (NilEmpty.string_of_uint d)) = true.
Proof. induction d; [reflexivity|..]; exact IHd. Qed.

Lemma numberToString_pos p :
  numberToString (Z.pos p) = js (NilEmpty.string_of_uint (Pos.to_uint p)).
Proof.
  unfold numberToString. cbn [Z.to_int NilZero.string_of_int].
  unfold NilZero.string_of_uint.
  pose proof (DecimalPos.Unsigned.to_uint_nonnil p) as Hn.
  now destruct (Pos.to_uint p).
Qed.

Lemma numberToString_digits n :
  0 <= n ->
  numberToString n <> []
  /\ forallb isDigit (numberToString n) = true
  /\ parseInt (numberToString n) = n.
Proof.
  intros Hn. destruct n as [|p|p]; [repeat split; discriminate| |lia].
  rewrite numberToString_pos. split; [|split].
  - pose proof (DecimalPos.Unsigned.to_uint_nonnil p) as Hnil.
    destruct (Pos.to_uint p); [congruence|..]; discriminate.
  - apply digits_uint.
  - now rewrite parseInt_uint, DecimalPos.Unsigned.of_to.
Qed.

(** X3. A post number is never negative, and the text [toString] gives for
    a number a Number holds exactly (up to 2^53), which names the post's
    directory and ends the path of its image, is read back by
    [extractPostNumber] as the same number: a link or path that ends in a
    slash and that text has that post number. *)
Theorem extractPostNumber_toString :
  (forall link, 0 <= extractPostNumber link)
  /\ (forall pre n, 0 <= n <= 2 ^ 53 ->
        extractPostNumber (pre ++ slash :: numberToString n) = n).
Proof.
  split.
  - intros link. unfold extractPostNumber.
    destruct (matchTrailingNumber link) as [digits|] eqn:E; [|lia].
    destruct (matchTrailingNumber_inv _ _ E) as (pre & _ & _ & Hd).
    rewrite parseInt_decimalValue. now apply decimalValue_nonneg.
  - intros pre n [Hn _]. destruct (numberToString_digits n Hn) as (Hne & Hd & Hp).
    unfold extractPostNumber. now rewrite matchTrailingNumber_suffix.
Qed.

Lemma extractPostNumber_toString_witness :
  extractPostNumber (js "images/news" ++ slash :: numberToString 4071) = 4071
  /\ numberToString 4071 = js "4071".
Proof.
  destruct extractPostNumber_toString as (_ & Hround).
  split; [apply (Hround (js "images/news") 4071); lia|reflexivity].
Defined.

End PostNumberNames.

(** ** Content types and file names *)

Section MimeNames.

Lemma everyByteMatches_firstn signature buffer :
  (length signature <= 4)%nat ->
  everyByteMatches signature (firstn 4 buffer) = everyByteMatches signature buffer.
Proof.
  assert (Hgen : forall n sg buf, (length sg <= n)%nat ->
             everyByteMatches sg (firstn n buf) = everyByteMatches sg buf).
  { intros n sg. revert n. induction sg as [|b sg IH]; intros n buf Hn; [reflexivity|].
    destruct n as [|n]; [simpl in Hn; lia|].
    destruct buf as [|c buf]; [reflexivity|]. simpl.
    rewrite IH; [reflexivity|]. simpl in Hn. lia. }
  apply Hgen.
Qed.

Lemma storedName_known buffer :
  In (js "image" ++ getExtFromMime (detectMimeType buffer)) imageNames.
Proof.
  unfold detectMimeType, signatures. cbn [firstMatching].
  repeat match goal with
         | |- context [if ?b then _ else _] => destruct b
         end; vm_compute; tauto.
Qed.

(** X4. The detected content type is always one of the four image types and
    depends on the first four bytes of the buffer only. The extension derived
    from it is the one of the signature found, [.jpg] when none is, so a
    download is always stored under one of the names image.jpg, image.png,
    image.gif, image.webp. *)
Theorem detectMimeType_range :
  (forall buffer, In (detectMimeType buffer) mimeTypes)
  /\ (forall buffer, detectMimeType (firstn 4 buffer) = detectMimeType buffer)
  /\ (forall buffer,
        In (js "image" ++ getExtFromMime (detectMimeType buffer)) imageNames)
  /\ (forall rest,
        getExtFromMime (detectMimeType (jpegMagic ++ rest)) = js ".jpg"
        /\ getExtFromMime (detectMimeType (pngMagic ++ rest)) = js ".png"
        /\ getExtFromMime (detectMimeType (gifMagic ++ rest)) = js ".gif"
        /\ getExtFromMime (detectMimeType (webpMagic ++ rest)) = js ".webp").
Proof.
  split; [|split; [|split]].
  - intros buffer. unfold detectMimeType, signatures. cbn [firstMatching].
    repeat match goal with
           | |- context [if ?b then _ else _] => destruct b
           end; simpl; tauto.
  - intros buffer. unfold detectMimeType, signatures. cbn [firstMatching].
    now rewrite !everyByteMatches_firstn by (simpl; lia).
  - exact storedName_known.
  - intros rest. repeat split.
Qed.

End MimeNames.

(** ** The refresh interval *)

Section IntervalFacts.
Import QArith_base.




End IntervalFacts.

(** ** The budget of the retry loops *)

Section RetryBudget.

Lemma retryLoop_shape {A : Type} call (op : nat -> Result A) retries delay fuel attempt :
  (attempt + fuel = retries)%nat ->
  match retryLoop call op retries delay fuel attempt with
  | (Return _, tr) | (Throw _, tr) =>
      exists m, (attempt + m < retries)%nat /\ tr = retryTrace call delay attempt m ++ [call]
  | (ReturnUndefined, tr) => fuel = 0%nat /\ tr = []
  end.
Proof.
  revert attempt. induction fuel as [|fuel IH]; intros attempt Hfuel; [now split|].
  rewrite retryLoop_step. destruct (op attempt) as [a|e].
  - exists 0%nat. split; [lia|reflexivity].
  - destruct (Nat.eqb_spec attempt (retries - 1)) as [Heq|Hne].
    + exists 0%nat. split; [lia|reflexivity].
    + specialize (IH (S attempt) ltac:(lia)).
      destruct (retryLoop call op retries delay fuel (S attempt)) as [[a| |] tr].
      * destruct IH as (m & Hm & ->). exists (S m). split; [lia|reflexivity].
      * destruct IH as (m & Hm & ->). exists (S m). split; [lia|reflexivity].
      * destruct IH as [-> _]. lia.
Qed.

Lemma totalWait_retryTrace call delay from m :
  match call with EvWait _ => False | _ => True end ->
  totalWait (retryTrace call delay from m ++ [call])
  = delay * 2 ^ Z.of_nat from * (2 ^ Z.of_nat m - 1).
Proof.
  intros Hcall. revert from. induction m as [|m IH]; intros from.
  - destruct call; try contradiction; simpl; lia.
  - cbn [retryTrace app]. specialize (IH (S from)).
    assert (Hstep : totalWait (call :: EvWait (delay * 2 ^ Z.of_nat from)
                                 :: retryTrace call delay (S from) m ++ [call])
                    = delay * 2 ^ Z.of_nat from
                      + totalWait (retryTrace call delay (S from) m ++ [call]))
      by (destruct call; try contradiction; reflexivity).
    rewrite Hstep, IH, !Nat2Z.inj_succ, !Z.pow_succ_r by lia. ring.
Qed.

Lemma retry_trace_budget call delay m :
  match call with EvWait _ => False | _ => True end ->
  countRequests (retryTrace call delay 0 m ++ [call]) = S m
  /\ totalWait (retryTrace call delay 0 m ++ [call]) = delay * (2 ^ Z.of_nat m - 1)
  /\ last (retryTrace call delay 0 m ++ [call]) = Some call.
Proof.
  intros Hcall. split; [now apply countRequests_retryTrace|]. split.
  - rewrite totalWait_retryTrace by assumption. simpl. lia.
  - apply last_snoc.
Qed.

(** X6. Neither retry loop calls its operation more often than [retries]
    times, and what it waits in all is fixed by the number of calls it made:
    [delay * (2 ^ (calls - 1) - 1)], so at most 6000 ms over three calls with
    the default delay of 2000 ms. It never waits after its last call. With
    [retries] at 0 it makes no call and returns [undefined] without
    throwing; with a positive [retries] it always returns a result or
    throws. *)
Theorem retry_budget :
  (forall telegram_rss channel retries delay,
      let '(c, tr) := safeTelegramRss telegram_rss channel retries delay in
      (countRequests tr <= retries)%nat
      /\ totalWait tr = delay * (2 ^ Z.of_nat (countRequests tr - 1) - 1)
      /\ (tr = [] \/ last tr = Some (EvTelegram channel))
      /\ (c = ReturnUndefined <-> retries = 0%nat))
  /\ (forall imageDir (fs : FS) https_get imageUrl channel postNumber retries delay,
         let '(c, _, tr) :=
           downloadImage imageDir fs https_get imageUrl channel postNumber retries delay in
         (countRequests tr <= retries)%nat
         /\ totalWait tr = delay * (2 ^ Z.of_nat (countRequests tr - 1) - 1)
         /\ (tr = [] \/ last tr = Some (EvGet imageUrl))
         /\ (c = ReturnUndefined ->
             retries = 0%nat /\ dirEntries fs (postDirOf imageDir channel postNumber) = [])).
Proof.
  assert (Hloop : forall (A : Type) call (op : nat -> Result A) retries delay,
             match call with EvWait _ => False | _ => True end ->
             let '(c, tr) := retryLoop call op retries delay retries 0 in
             (countRequests tr <= retries)%nat
             /\ totalWait tr = delay * (2 ^ Z.of_nat (countRequests tr - 1) - 1)
             /\ (tr = [] \/ last tr = Some call)
             /\ (c = ReturnUndefined <-> retries = 0%nat)).
  { intros A call op retries delay Hcall.
    pose proof (retryLoop_shape call op retries delay retries 0 eq_refl) as H.
    destruct (retryLoop call op retries delay retries 0) as [[a|e|] tr].
    - destruct H as (m & Hm & ->).
      destruct (retry_trace_budget call delay m Hcall) as (Hc & Hw & Hl).
      rewrite Hc, Hw. replace (S m - 1)%nat with m by lia.
      repeat split; try lia; try (now right); try discriminate.
    - destruct H as (m & Hm & ->).
      destruct (retry_trace_budget call delay m Hcall) as (Hc & Hw & Hl).
      rewrite Hc, Hw. replace (S m - 1)%nat with m by lia.
      repeat split; try lia; try (now right); try discriminate.
    - destruct H as [-> ->]. unfold countRequests. simpl.
      repeat split; try lia; now left. }
  split.
  - intros tg channel retries delay. unfold safeTelegramRss. now apply Hloop.
  - intros imageDir fs https_get imageUrl channel postNumber retries delay.
    destruct (dirEntries fs (postDirOf imageDir channel postNumber))
      as [|[existingFile buffer] others] eqn:Hdir.
    + rewrite downloadImage_fresh by assumption.
      pose proof (Hloop _ (EvGet imageUrl)
                    (downloadAttempt (withPostDir fs imageDir channel postNumber) https_get
                       (postDirOf imageDir channel postNumber) channel postNumber)
                    retries delay I) as H.
      destruct (retryLoop _ _ _ _ _ _) as [[[d fs3]|e|] tr];
        destruct H as (Hc & Hw & Hl & Hu); repeat split; try assumption; try discriminate.
      now apply Hu.
    + rewrite (downloadImage_stored imageDir fs https_get imageUrl channel postNumber
                 retries delay _ _ _ Hdir).
      unfold countRequests. simpl. repeat split; try lia; try discriminate. now left.
Qed.

End RetryBudget.

Lemma retry_budget_witness :
  safeTelegramRss deadUpstream (js "news") 0 2000 = (ReturnUndefined, [])
  /\ totalWait (snd (safeTelegramRss deadUpstream (js "news") 3 2000)) = 6000
  /\ countRequests (snd (safeTelegramRss deadUpstream (js "news") 3 2000)) = 3%nat.
Proof.
  destruct retry_budget as [Hfetch _].
  pose proof (Hfetch deadUpstream (js "news") 0%nat 2000) as H0.
  pose proof (Hfetch deadUpstream (js "news") 3%nat 2000) as H3.
  destruct (safeTelegramRss deadUpstream (js "news") 0 2000) as [c0 tr0] eqn:E0.
  destruct (safeTelegramRss deadUpstream (js "news") 3 2000) as [c3 tr3] eqn:E3.
  destruct H0 as (_ & _ & _ & Hu). destruct H3 as (_ & Hw & _ & _).
  split; [|split].
  - rewrite (proj2 Hu eq_refl). f_equal.
    apply (f_equal snd) in E0. simpl in E0. rewrite <- E0. reflexivity.
  - simpl. rewrite Hw. apply (f_equal snd) in E3. simpl in E3. rewrite <- E3. reflexivity.
  - simpl. apply (f_equal snd) in E3. simpl in E3. rewrite <- E3. reflexivity.
Defined.

(** ** What the media store does to the disk *)

Section DiskFacts.
Variable imageDir : jsstring.





(** X7. First writer wins. Once the directory of a post holds a file, a call
    of the media store for that post returns the metadata of the first file
    listed, whatever the URL it is given and whatever the network would
    answer; it issues no request, and leaves the listing of every directory
    as it was. *)
Theorem stored_image_wins (fs : FS) https_get imageUrl channel postNumber retries delay :
  dirEntries fs (postDirOf imageDir channel postNumber) <> [] ->
  exists imageData fs1,
    downloadImage imageDir fs https_get imageUrl channel postNumber retries delay
    = (Return imageData, fs1, [])
    /\ head (readdirSync fs (postDirOf imageDir channel postNumber))
       = Some (filename imageData)
    /\ (forall dir, dirEntries fs1 dir = dirEntries fs dir)
    /\ (forall https_get' imageUrl' retries' delay',
           downloadImage imageDir fs https_get' imageUrl' channel postNumber retries' delay'
           = (Return imageData, fs1, [])).
Proof.
  intros Hne.
  destruct (dirEntries fs (postDirOf imageDir channel postNumber))
    as [|[existingFile buffer] others] eqn:Hdir; [congruence|].
  eexists _, _. split; [|split; [|split]].
  - exact (downloadImage_stored imageDir fs https_get imageUrl channel postNumber
             retries delay _ _ _ Hdir).
  - unfold readdirSync. now rewrite Hdir.
  - intros dir. apply dirEntries_withPostDir.
  - intros https_get' imageUrl' retries' delay'.
    exact (downloadImage_stored imageDir fs https_get' imageUrl' channel postNumber
             retries' delay' _ _ _ Hdir).
Qed.


End DiskFacts.

Lemma stored_image_wins_witness :
  exists imageData fs1,
    downloadImage (js "/srv/images") {[ js "/srv/images/news/7" := [(js "old.gif", [71; 73; 70; 56])] ]}
      deadServer (js "https://cdn/new.png") (js "news") 7 3 2000
    = (Return imageData, fs1, [])
    /\ filename imageData = js "old.gif"
    /\ mimeType imageData = js "image/gif".
Proof.
  destruct (stored_image_wins (js "/srv/images")
              {[ js "/srv/images/news/7" := [(js "old.gif", [71; 73; 70; 56])] ]}
              deadServer (js "https://cdn/new.png") (js "news") 7 3%nat 2000)
    as (imageData & fs1 & Hcall & Hhead & _); [discriminate|].
  exists imageData, fs1. split; [exact Hcall|].
  vm_compute in Hhead. injection Hhead as Hname.
  split; [now symmetry|].
  apply (f_equal (fun x => match fst (fst x) with Return d => mimeType d | _ => [] end)) in Hcall.
  simpl in Hcall. rewrite <- Hcall. reflexivity.
Defined.


(** ** When normalization fails, and the shape of what it builds *)

Section ShapeFacts.
Variable env : Env.
Variables telegram_channel serverUrl : jsstring.

Ltac shape_cases H :=
  unfold processItem, rbind in H;
  repeat match type of H with
         | context [match ?x with _ => _ end] =>
             match x with
             | raw_image _ => destruct x as [[?u|]|] eqn:?Eimage
             | raw_link _ => destruct x as [?link|] eqn:?Elink
             | raw_description _ => destruct x as [?d|] eqn:?Edescription
             | raw_title _ => destruct x as [?t|] eqn:?Etitle
             | Sanitize.sanitizeXmlText _ => destruct x as [?text|?err] eqn:?Etext
             end; try discriminate H
         end.

Lemma sanitizeXmlText_error v e : Sanitize.sanitizeXmlText v = Err e -> e = TypeError.
Proof.
  unfold Sanitize.sanitizeXmlText. destruct (falsy v); [discriminate|].
  destruct v; try discriminate; now intros [= <-].
Qed.

Lemma processItem_error index item e :
  processItem env telegram_channel serverUrl index item = Err e -> e = TypeError.
Proof.
  intros H. shape_cases H.
  all: try (injection H as <-; reflexivity).
  all: try (injection H as <-; eapply sanitizeXmlText_error; eassumption).
Qed.

Lemma processItemsFrom_error index items e :
  processItemsFrom env telegram_channel serverUrl index items = Err e -> e = TypeError.
Proof.
  revert index. induction items as [|item rest IH]; intros index H; [discriminate|].
  simpl in H. unfold rbind in H.
  destruct (processItem env telegram_channel serverUrl index item) as [x|e'] eqn:Eitem.
  - destruct (processItemsFrom env telegram_channel serverUrl (S index) rest) as [xs|e'']
      eqn:Erest; [discriminate|].
    injection H as <-. now apply (IH (S index)).
  - injection H as <-. now apply (processItem_error index item).
Qed.

(** X9. Whether a parsed channel is normalized depends on its shape alone,
    not on the network, the disk or the clock: it is normalized exactly when
    it has a title that is text, a list of items, and every item has a link,
    a description or else a title that is text, and an image only with its
    url. In every other case the whole refresh fails, with a TypeError; in
    particular a channel without a single item is not served, and one item
    out of shape fails the document for all. *)
Theorem normalizeChannel_ok_iff (raw : RawChannel) :
  ((exists out, normalizeChannel env telegram_channel serverUrl raw = Ok out)
   <-> wellFormedChannel raw = true)
  /\ (forall e, normalizeChannel env telegram_channel serverUrl raw = Err e -> e = TypeError)
  /\ (raw_channel_item raw = None ->
      normalizeChannel env telegram_channel serverUrl raw = Err TypeError).
Proof.
  split; [|split].
  - split; [|apply normalizeChannel_ok].
    intros [out Hout].
    destruct (normalizeChannel_inv _ _ _ _ _ Hout) as (title & rawItems & keyed & Ht & Hi & Hp & _).
    destruct (processItemsFrom_inv _ _ _ _ _ _ Hp) as (_ & _ & Hwf).
    unfold wellFormedChannel. rewrite Hi, Hwf, andb_true_r.
    unfold channelTitle, rbind in Ht. destruct (raw_channel_title raw) as [t|]; [|discriminate].
    destruct (Sanitize.sanitizeXmlText t) as [x|] eqn:Ex; [|discriminate].
    exact (sanitizeXmlText_textOk _ _ Ex).
  - intros e. unfold normalizeChannel, rbind, channelTitle, channelItems.
    destruct (raw_channel_title raw) as [t|]; [|now intros [= <-]].
    destruct (Sanitize.sanitizeXmlText t) as [x|e'] eqn:Ex;
      [|intros [= <-]; exact (sanitizeXmlText_error _ _ Ex)].
    destruct (raw_channel_item raw) as [rawItems|]; [|now intros [= <-]].
    destruct (processItemsFrom env telegram_channel serverUrl 0 rawItems) as [keyed|e'] eqn:Ep;
      [discriminate|].
    intros [= <-]. exact (processItemsFrom_error _ _ _ Ep).
  - intros Hnone.
    destruct (normalizeChannel env telegram_channel serverUrl raw) as [out|e] eqn:E.
    + destruct (normalizeChannel_inv _ _ _ _ _ E) as (_ & rawItems & _ & _ & Hi & _).
      congruence.
    + f_equal. revert E. unfold normalizeChannel, rbind, channelTitle, channelItems.
      destruct (raw_channel_title raw) as [t|]; [|now intros [= <-]].
      destruct (Sanitize.sanitizeXmlText t) as [x|e'] eqn:Ex;
        [|intros [= <-]; exact (sanitizeXmlText_error _ _ Ex)].
      rewrite Hnone. now intros [= <-].
Qed.

Lemma processItem_shape index item e k :
  processItem env telegram_channel serverUrl index item = Ok (e, k) ->
  item_title e = js "[Photo]"
  /\ item_guid e = item_link e
  /\ xmlSafe (item_description e) = true
  /\ (length (item_enclosure e) <= 1)%nat
  /\ (match raw_image item with Some (Some (_ :: _)) => False | _ => True end ->
      item_enclosure e = []).
Proof.
  intros H. shape_cases H.
  all: injection H as <- _; cbn [item_title item_guid item_link item_description item_enclosure].
  all: split; [reflexivity|]; split; [reflexivity|].
  all: split; [eapply sanitizeXmlText_safe; eassumption|].
  all: try (destruct u as [|c u]).
  all: try (destruct (downloadImage _ _ _ _ _ _ _ _) as [[[?|?|] ?] ?]).
  all: split; [simpl; lia|]; try reflexivity; try contradiction; try (intros []).
Qed.

Lemma processItemsFrom_shape index rawItems keyed :
  processItemsFrom env telegram_channel serverUrl index rawItems = Ok keyed ->
  Forall (fun x : Item * Z =>
            item_title (fst x) = js "[Photo]"
            /\ item_guid (fst x) = item_link (fst x)
            /\ xmlSafe (item_description (fst x)) = true
            /\ (length (item_enclosure (fst x)) <= 1)%nat) keyed.
Proof.
  revert index keyed.
  induction rawItems as [|item rest IH]; intros index keyed Hp; simpl in Hp.
  - injection Hp as <-. constructor.
  - unfold rbind in Hp.
    destruct (processItem env telegram_channel serverUrl index item) as [[e k]|] eqn:Eitem;
      [|discriminate].
    destruct (processItemsFrom env telegram_channel serverUrl (S index) rest) as [es|] eqn:Erest;
      [|discriminate].
    injection Hp as <-. constructor; [|now apply (IH (S index))].
    destruct (processItem_shape _ _ _ _ Eitem) as (H1 & H2 & H3 & H4 & _). cbn [fst]. auto.
Qed.

(** X10. In every normalized document the channel title is not empty and
    safe XML text, the link is [https://t.me/] followed by the channel name,
    the description is empty, the two dates are the same text and the self
    link has an empty address. Every entry has the fixed title
    [[Photo]], the title of the post being discarded, its link as its guid, a
    description that is safe XML text, and at most one enclosure. *)
Theorem normalized_shape (raw : RawChannel) (out : Channel) :
  normalizeChannel env telegram_channel serverUrl raw = Ok out ->
  channel_title out <> []
  /\ xmlSafe (channel_title out) = true
  /\ channel_link out = js "https://t.me/" ++ telegram_channel
  /\ channel_description out = []
  /\ channel_pubDate out = channel_lastBuildDate out
  /\ channel_atom_link out = (js "self", js "application/rss+xml", [])
  /\ Forall (fun e => item_title e = js "[Photo]"
                      /\ item_guid e = item_link e
                      /\ xmlSafe (item_description e) = true
                      /\ (length (item_enclosure e) <= 1)%nat)
       (channel_item out).
Proof.
  intros H.
  destruct (normalizeChannel_inv _ _ _ _ _ H) as (title & rawItems & keyed & Ht & Hi & Hp & ->).
  cbn [assembleChannel channel_title channel_link channel_description channel_pubDate
         channel_lastBuildDate channel_atom_link channel_item].
  assert (Htitle : title <> [] /\ xmlSafe title = true).
  { unfold channelTitle, rbind in Ht. destruct (raw_channel_title raw) as [t|]; [|discriminate].
    destruct (Sanitize.sanitizeXmlText t) as [x|] eqn:Ex; [|discriminate].
    injection Ht as <-. destruct x as [|c x]; [split; [discriminate|reflexivity]|].
    split; [discriminate|]. exact (sanitizeXmlText_safe _ _ Ex). }
  destruct Htitle as [Hne Hsafe]. repeat split; try assumption.
  apply List.Forall_map.
  apply (Permutation_Forall (Permutation_sym (sortItems_perm keyed))).
  exact (processItemsFrom_shape _ _ _ Hp).
Qed.

End ShapeFacts.

Lemma normalizeChannel_ok_iff_witness :
  wellFormedChannel sampleChannel = true
  /\ (exists out, normalizeChannel sampleEnv (js "news") (js "http://serverIP") sampleChannel
                  = Ok out)
  /\ normalizeChannel sampleEnv (js "news") (js "http://serverIP")
       {| raw_channel_title := Some (JsString (js "News"));
          raw_channel_item := None;
          raw_channel_other := [] |} = Err TypeError.
Proof.
  split; [reflexivity|]. split.
  - apply (normalizeChannel_ok_iff sampleEnv (js "news") (js "http://serverIP") sampleChannel).
    reflexivity.
  - apply (normalizeChannel_ok_iff sampleEnv (js "news") (js "http://serverIP")). reflexivity.
Defined.

Lemma normalized_shape_witness :
  exists out,
    normalizeChannel sampleEnv (js "news") (js "http://serverIP") sampleChannel = Ok out
    /\ channel_title out = js "News"
    /\ List.map item_title (channel_item out)
       = [js "[Photo]"; js "[Photo]"; js "[Photo]"; js "[Photo]"]
    /\ xmlSafe (channel_title out) = true.
Proof.
  destruct (normalizeChannel sampleEnv (js "news") (js "http://serverIP") sampleChannel)
    as [out|] eqn:E; [|discriminate E].
  exists out. split; [reflexivity|].
  destruct (normalized_shape sampleEnv (js "news") (js "http://serverIP") sampleChannel out E)
    as (_ & Hsafe & _).
  split; [|split; [|exact Hsafe]].
  - vm_compute in E. injection E as <-. reflexivity.
  - vm_compute in E. injection E as <-. reflexivity.
Defined.

(** ** The image route *)

Section RouteFacts.
Variable dirname : jsstring.






End RouteFacts.


(** ** The feed route and the scheduler *)

Section RefreshFacts.
Variable env : Env.
Variables telegram_channel serverUrl : jsstring.






End RefreshFacts.

Section HandlerFacts.
Variable env : Env.
Variables dirname pathname : jsstring.


End HandlerFacts.


Section TickFacts.
Import QArith_base.
Variable envAt : nat -> Env.
Variable random : Q.
Variables channel serverUrl : jsstring.





End TickFacts.

